(** * The CSS language server of coc.nvim (src/css/server.ts)

    A shallow embedding of the server's event handlers: the debounced
    validation scheduler, the language-service dispatch, the query
    handlers and the settings update, together with the collaborators
    they call (the document store, the timer table of the event loop,
    the stylesheet cache and the request runner).

    Conventions.
    - A JavaScript object used as a dictionary is a [gmap]; document URIs
      always carry a scheme and a colon, so they never name a member that
      a dictionary inherits from [Object.prototype].  The language
      identifier is a free-form string, so the lookup in
      [languageServices] spells the inherited members out.
    - A [TextDocument] is an object whose [uri] and [languageId] are
      read-only and whose version and text are replaced in place by the
      document manager: the handle carries the read-only fields and the
      address of the mutable part in [heap].
    - The event loop runs one task at a time.  A task is an incoming
      notification or request, or a timer that is due; the promise
      reaction of [validateTextDocument] is a microtask and runs inside
      the task that created it.
    - [trace] lists what the server did, newest first: console output,
      published diagnostics, and (as ghost entries) the language-service
      methods invoked and the validation passes started. *)

From Stdlib Require Import ZArith Floats.
From stdpp Require Import base gmap list strings pretty.

(** ** Values shared by all components *)

Definition Error := string.

Inductive Result (A : Type) : Type :=
| Ok (a : A)
| Throw (e : Error).
Arguments Ok {A} a.
Arguments Throw {A} e.

Inductive Promise (A : Type) : Type :=
| Resolved (v : A)
| Rejected (e : Error).
Arguments Resolved {A} v.
Arguments Rejected {A} e.

(** The handle of a text document object. *)
Record TextDocument := mkTextDocument {
  uri : string;
  languageId : string;
  cell : nat
}.

(** The mutable part of a text document object. *)
Record Contents := mkContents {
  version : Z;
  text : string
}.

(** A text document as a callee reads it at some moment. *)
Record Snapshot := mkSnapshot {
  document : TextDocument;
  contents : Contents
}.

#[global] Instance TextDocument_eq_dec : EqDecision TextDocument.
Proof. solve_decision. Defined.

(** The three language services that server.ts registers. *)
Inductive Engine := CSS | SCSS | LESS.

#[global] Instance Engine_eq_dec : EqDecision Engine.
Proof. solve_decision. Defined.

(** What [languageServices[id]] can evaluate to: a registered service, or
    a member inherited from [Object.prototype]. *)
Inductive Service :=
| Registered (e : Engine)
| Inherited (name : string).

(** The vscode-css-languageservice library and utils/convert: external to
    server.ts.  Every analysis method may throw; it reads the document
    and the configuration its service was last given. *)
Class Library := {
  Stylesheet : Type;
  LanguageSettings : Type;
  Diagnostic : Type;
  Position : Type;
  Range : Type;
  CodeActionContext : Type;
  Answer : Type;
  CompletionItem : Type;
  VimCompleteItem : Type;
  parseStylesheet :
    Engine → option LanguageSettings → Snapshot → Result Stylesheet;
  doValidation :
    Engine → option LanguageSettings → Snapshot → Stylesheet →
    option LanguageSettings → Result (list Diagnostic);
  doComplete :
    Engine → option LanguageSettings → Snapshot → Position → Stylesheet →
    Result (list CompletionItem);
  doHover :
    Engine → option LanguageSettings → Snapshot → Position → Stylesheet →
    Result (option Answer);
  findDocumentSymbols :
    Engine → option LanguageSettings → Snapshot → Stylesheet →
    Result (list Answer);
  findDefinition :
    Engine → option LanguageSettings → Snapshot → Position → Stylesheet →
    Result (option Answer);
  findDocumentHighlights :
    Engine → option LanguageSettings → Snapshot → Position → Stylesheet →
    Result (list Answer);
  findReferences :
    Engine → option LanguageSettings → Snapshot → Position → Stylesheet →
    Result (list Answer);
  doCodeActions :
    Engine → option LanguageSettings → Snapshot → Range →
    CodeActionContext → Stylesheet → Result (list Answer);
  doRename :
    Engine → option LanguageSettings → Snapshot → Position → string →
    Stylesheet → Result Answer;
  convertCompleteItems : list CompletionItem → list VimCompleteItem
}.

(** ** The language model cache (./languageModelCache) *)

Module LanguageModelCache.

Section Cache.
Context {M : Type}.

(** Modelled from the spec: ./languageModelCache is not among the sources;
    this is the derived model of the spec.  The identity of the object
    that holds it is made explicit: the n-th model the cache stored has
    identity n. *)
Record Model := mkModel {
  objectId : nat;
  value : M
}.

(** Modelled from the spec: ./languageModelCache is not among the sources;
    a cache entry is "{ version: int, model: M, lastUsedAt: timestamp }". *)
Record Entry := mkEntry {
  cachedVersion : Z;
  model : Model;
  lastUsedAt : nat
}.

(** Modelled from the spec: ./languageModelCache is not among the sources;
    the cache owns a mapping from identity to entry (kept in insertion
    order, as the keys of a JavaScript object are), [capacity] and
    [maxAgeSeconds]; [created] counts the models stored so far. *)
Record t := mkCache {
  entries : list (string * Entry);
  capacity : nat;
  maxAgeSeconds : nat;
  created : nat
}.

Definition with_entries (l : list (string * Entry)) (c : t) : t :=
  mkCache l (capacity c) (maxAgeSeconds c) (created c).

(** Lookup of a key. *)
Fixpoint find (u : string) (l : list (string * Entry)) : option Entry :=
  match l with
  | [] => None
  | (k, e) :: l' => if decide (k = u) then Some e else find u l'
  end.

(** Assignment to a key: in place when the key exists ("refreshed in
    place"), at the end otherwise. *)
Fixpoint assign (u : string) (e : Entry) (l : list (string * Entry))
  : list (string * Entry) :=
  match l with
  | [] => [(u, e)]
  | (k, e') :: l' =>
      if decide (k = u) then (k, e) :: l' else (k, e') :: assign u e l'
  end.

(** Deletion of a key. *)
Fixpoint remove (u : string) (l : list (string * Entry))
  : list (string * Entry) :=
  match l with
  | [] => []
  | (k, e) :: l' =>
      if decide (k = u) then remove u l' else (k, e) :: remove u l'
  end.

(** Modelled from the spec: ./languageModelCache is not among the sources;
    "the single entry with the oldest lastUsedAt", the first one of them
    when several are equally old. *)
Fixpoint oldest (l : list (string * Entry)) : option (string * Entry) :=
  match l with
  | [] => None
  | (k, e) :: l' =>
      match oldest l' with
      | Some (k', e') =>
          if lastUsedAt e' <? lastUsedAt e then Some (k', e')
          else Some (k, e)
      | None => Some (k, e)
      end
  end.

(** Modelled from the spec: ./languageModelCache is not among the sources;
    "repeatedly evict the single entry with the oldest lastUsedAt until
    size <= capacity".  [fuel] bounds the number of rounds. *)
Fixpoint evict (fuel : nat) (cap : nat) (l : list (string * Entry))
  : list (string * Entry) :=
  match fuel with
  | 0 => l
  | S fuel' =>
      if length l <=? cap then l
      else match oldest l with
           | Some (k, _) => evict fuel' cap (remove k l)
           | None => l
           end
  end.

(** Modelled from the spec: ./languageModelCache is not among the sources;
    the capacity check that every [get] triggers.  One round per entry is
    enough fuel. *)
Definition capacityCheck (c : t) : t :=
  with_entries (evict (length (entries c)) (capacity c) (entries c)) c.

(** Modelled from the spec: ./languageModelCache is not among the sources;
    [getLanguageModelCache(capacity, maxAgeSeconds, parse)] starts
    empty. *)
Definition create (cap age : nat) : t := mkCache [] cap age 0.

Definition touch (clock : nat) (e : Entry) : Entry :=
  mkEntry (cachedVersion e) (model e) clock.

(** Modelled from the spec: ./languageModelCache is not among the sources;
    a hit is "an entry exists for the identity AND its stored version
    equals the document's current version". *)
Definition hit (d : Snapshot) (c : t) : option Entry :=
  match find (uri (document d)) (entries c) with
  | Some e =>
      if decide (cachedVersion e = version (contents d)) then Some e
      else None
  | None => None
  end.

(** Modelled from the spec: ./languageModelCache is not among the sources;
    a fresh model is stored "with the current version and current
    timestamp". *)
Definition store (clock : nat) (d : Snapshot) (m : M) (c : t) : t :=
  let e := mkEntry (version (contents d)) (mkModel (created c) m) clock in
  mkCache (assign (uri (document d)) e (entries c))
          (capacity c) (maxAgeSeconds c) (S (created c)).

(** Modelled from the spec: ./languageModelCache is not among the sources;
    [get(document)]: on a hit the stored model is returned; otherwise
    the compute function runs and its result is stored and returned;
    every call that returns sets [lastUsedAt] to the current time and
    triggers the capacity check.  A failure of the compute function is
    not caught.  [St] is the state the compute function runs in. *)
Definition get {St : Type} (compute : Snapshot → St → Result M * St)
    (clock : nat) (d : Snapshot) (c : t) (s : St)
  : Result Model * t * St :=
  match hit d c with
  | Some e =>
      (Ok (model e),
       capacityCheck
         (with_entries
            (assign (uri (document d)) (touch clock e) (entries c)) c),
       s)
  | None =>
      match compute d s with
      | (Ok m, s') =>
          (Ok (mkModel (created c) m),
           capacityCheck (store clock d m c), s')
      | (Throw err, s') => (Throw err, c, s')
      end
  end.

(** Modelled from the spec: ./languageModelCache is not among the sources;
    [onDocumentRemoved(document)] "removes the entry for that identity
    unconditionally". *)
Definition onDocumentRemoved (d : TextDocument) (c : t) : t :=
  with_entries (remove (uri d) (entries c)) c.

(** Modelled from the spec: ./languageModelCache is not among the sources;
    [dispose()] "clears all entries". *)
Definition dispose (c : t) : t := with_entries [] c.

(** Modelled from the spec: ./languageModelCache is not among the sources;
    the periodic sweep "removes entries whose lastUsedAt is older than
    maxAgeSeconds". *)
Definition sweep (clock : nat) (c : t) : t :=
  with_entries
    (filter (λ ke, clock <=? lastUsedAt ke.2 + maxAgeSeconds c * 1000)
            (entries c)) c.

(** What every operation keeps: keys are unique, the size is within
    the capacity, and no entry was used after [clock]. *)
Record inv (clock : nat) (c : t) : Prop := mkInv {
  inv_keys : NoDup (entries c).*1;
  inv_size : length (entries c) ≤ capacity c;
  inv_capacity : 0 < capacity c;
  inv_used : ∀ k e, (k, e) ∈ entries c → lastUsedAt e ≤ clock
}.

End Cache.

Arguments Model : clear implicits.
Arguments Entry : clear implicits.
Arguments t : clear implicits.

End LanguageModelCache.

(** ** The initialize handshake: server.ts lines 58-92 *)

(** The values a JSON-RPC message carries, as [JSON.parse] builds them;
    [JsUndefined] is what reading an absent property gives.  An object
    lists its own properties, the first entry of a name being the value
    of that property. *)
#[warnings="-register-all"] Inductive JsValue :=
| JsUndefined
| JsNull
| JsBoolean (b : bool)
| JsNumber (n : float)
| JsString (s : string)
| JsArray (elements : list JsValue)
| JsObject (properties : list (string * JsValue)).

(** [!!v]: everything is truthy but [undefined], [null], [false], the
    zeros, [NaN] and the empty string. *)
Definition truthy (v : JsValue) : bool :=
  match v with
  | JsUndefined | JsNull => false
  | JsBoolean b => b
  | JsNumber n => negb (PrimFloat.eqb n 0 || PrimFloat.is_nan n)
  | JsString s => negb (String.eqb s "")
  | JsArray _ | JsObject _ => true
  end.

(** The property [k] among the properties of an object literal. *)
Fixpoint assoc (k : string) (properties : list (string * JsValue))
  : option JsValue :=
  match properties with
  | [] => None
  | (k', v) :: rest => if String.eqb k' k then Some v else assoc k rest
  end.

(** The index that the property name [k] spells, if it is below [len]. *)
Definition indexOf (k : string) (len : nat) : option nat :=
  fst <$> list_find (λ i, pretty i = k) (seq 0 len).

Definition jsLength (len : nat) : JsValue :=
  JsNumber (PrimFloat.of_uint63 (Uint63.of_Z (Z.of_nat len))).

(** The own property [k] of [c]: a property of an object, an element or
    the length of an array, a code unit or the length of a string. *)
Definition getOwn (c : JsValue) (k : string) : option JsValue :=
  match c with
  | JsObject properties => assoc k properties
  | JsArray elements =>
      if String.eqb k "length" then Some (jsLength (length elements))
      else indexOf k (length elements) ≫= λ i, elements !! i
  | JsString s =>
      if String.eqb k "length" then Some (jsLength (String.length s))
      else indexOf k (String.length s) ≫= λ i,
           Some (JsString (String.substring i 1 s))
  | _ => None
  end.

(** [c.hasOwnProperty(k)]: the method is the inherited one unless the
    object has an own property of that name, which a message cannot make
    a function; [undefined] and [null] have no properties. *)
Definition hasOwnProperty (c : JsValue) (k : string) : Result bool :=
  match c with
  | JsUndefined | JsNull =>
      Throw "TypeError: Cannot read property 'hasOwnProperty'"
  | JsObject properties =>
      match assoc "hasOwnProperty" properties with
      | Some _ => Throw "TypeError: c.hasOwnProperty is not a function"
      | None => Ok (bool_decide (is_Some (assoc k properties)))
      end
  | _ => Ok (bool_decide (is_Some (getOwn c k)))
  end.

(** [name.split('.')]. *)
Fixpoint split_on (sep : Ascii.ascii) (name : string) : list string :=
  match name with
  | EmptyString => [EmptyString]
  | String c rest =>
      if Ascii.eqb c sep then EmptyString :: split_on sep rest
      else match split_on sep rest with
           | key :: keys => String c key :: keys
           | [] => [String c EmptyString]
           end
  end.

(** The loop of [getClientCapability] from key [i] on: it stops at the
    end of the keys or at a falsy value, and returns the default at the
    first key that is not an own property. *)
Fixpoint walk (keys : list string) (c def : JsValue) : Result JsValue :=
  match keys with
  | [] => Ok c
  | key :: keys' =>
      if truthy c then
        match hasOwnProperty c key with
        | Throw e => Throw e
        | Ok false => Ok def
        | Ok true => walk keys' (default JsUndefined (getOwn c key)) def
        end
      else Ok c
  end.

(** The character ['.']. *)
Definition dot : Ascii.ascii := Eval cbv in Ascii.ascii_of_nat 46.

(** [capabilities] is [params.capabilities]. *)
Definition getClientCapability (capabilities : JsValue) (name : string)
    (def : JsValue) : Result JsValue :=
  walk (split_on dot name) capabilities def.

Inductive TextDocumentSyncKind := SyncNone | SyncFull | SyncIncremental.

(** [documents.syncKind] of the document manager. *)
Definition syncKind : TextDocumentSyncKind := SyncFull.

Record CompletionOptions := mkCompletionOptions {
  resolveProvider : bool;
  triggerCharacters : list string
}.

(** [None] is [undefined]; [colorProvider] is the empty options
    object. *)
Record ServerCapabilities := mkServerCapabilities {
  textDocumentSync : TextDocumentSyncKind;
  completionProvider : option CompletionOptions;
  hoverProvider : bool;
  documentSymbolProvider : bool;
  referencesProvider : bool;
  definitionProvider : bool;
  documentHighlightProvider : bool;
  codeActionProvider : bool;
  renameProvider : bool;
  colorProvider : option unit
}.

(** What [onInitialize] builds once [snippetSupport] is known. *)
Definition capabilitiesFor (snippetSupport : bool) : ServerCapabilities :=
  mkServerCapabilities syncKind
    (if snippetSupport then Some (mkCompletionOptions false [":"])
     else None)
    true true true true true true true (Some tt).

Definition onInitialize (capabilities : JsValue)
  : Result ServerCapabilities :=
  match getClientCapability capabilities
          "textDocument.completion.completionItem.snippetSupport"
          (JsBoolean false) with
  | Ok v => Ok (capabilitiesFor (truthy v))
  | Throw e => Throw e
  end.

(** [at_path keys c v]: following [keys] from [c] through objects that
    own each key (and do not own a property named "hasOwnProperty")
    leads to [v]. *)
Inductive at_path : list string → JsValue → JsValue → Prop :=
| at_here v : at_path [] v v
| at_step key keys properties c v :
    assoc "hasOwnProperty" properties = None →
    assoc key properties = Some c →
    at_path keys c v →
    at_path (key :: keys) (JsObject properties) v.

(** The object that holds [leaf] under the nested [keys] and nothing
    else. *)
Fixpoint nest (keys : list string) (leaf : JsValue) : JsValue :=
  match keys with
  | [] => leaf
  | key :: keys' => JsObject [(key, nest keys' leaf)]
  end.

(** Whether the character [c] occurs in [s]. *)
Fixpoint mentions (c : Ascii.ascii) (s : string) : bool :=
  match s with
  | EmptyString => false
  | String c' rest => Ascii.eqb c' c || mentions c rest
  end.

(** [keys.join('.')]. *)
Definition join (keys : list string) : string := String.concat "." keys.

(** The path that [onInitialize] reads. *)
Definition snippetSupportPath : list string :=
  [ "textDocument"; "completion"; "completionItem"; "snippetSupport" ].

(** ** The server state *)

Section Server.
Context `{L : Library}.

Import LanguageModelCache.

(** server.ts, interface Settings. *)
Record Settings := mkSettings {
  css : LanguageSettings;
  less : LanguageSettings;
  scss : LanguageSettings
}.

Inductive Effect :=
| ConsoleLog (message : string)
| ConsoleError (message : string)
| SendDiagnostics (u : string) (diagnostics : list Diagnostic)
| Invoked (e : Engine) (method : string) (d : Snapshot)
| Validating (d : Snapshot).

Record State := mkState {
  now : nat;
  heap : nat → Contents;
  nextCell : nat;
  documents : gmap string TextDocument;
  timers : gmap nat (nat * TextDocument);
  nextTimer : nat;
  pendingValidationRequests : gmap string nat;
  documentSettings : gmap string (Promise (option LanguageSettings));
  configuration : Engine → option LanguageSettings;
  stylesheets : LanguageModelCache.t Stylesheet;
  trace : list Effect
}.

Definition set_now (v : nat) (s : State) : State :=
  mkState v (heap s) (nextCell s) (documents s) (timers s) (nextTimer s)
    (pendingValidationRequests s) (documentSettings s) (configuration s)
    (stylesheets s) (trace s).

Definition set_heap (v : nat → Contents) (s : State) : State :=
  mkState (now s) v (nextCell s) (documents s) (timers s) (nextTimer s)
    (pendingValidationRequests s) (documentSettings s) (configuration s)
    (stylesheets s) (trace s).

Definition set_nextCell (v : nat) (s : State) : State :=
  mkState (now s) (heap s) v (documents s) (timers s) (nextTimer s)
    (pendingValidationRequests s) (documentSettings s) (configuration s)
    (stylesheets s) (trace s).

Definition set_documents (v : gmap string TextDocument) (s : State) : State :=
  mkState (now s) (heap s) (nextCell s) v (timers s) (nextTimer s)
    (pendingValidationRequests s) (documentSettings s) (configuration s)
    (stylesheets s) (trace s).

Definition set_timers (v : gmap nat (nat * TextDocument)) (s : State)
  : State :=
  mkState (now s) (heap s) (nextCell s) (documents s) v (nextTimer s)
    (pendingValidationRequests s) (documentSettings s) (configuration s)
    (stylesheets s) (trace s).

Definition set_nextTimer (v : nat) (s : State) : State :=
  mkState (now s) (heap s) (nextCell s) (documents s) (timers s) v
    (pendingValidationRequests s) (documentSettings s) (configuration s)
    (stylesheets s) (trace s).

Definition set_pendingValidationRequests (v : gmap string nat) (s : State)
  : State :=
  mkState (now s) (heap s) (nextCell s) (documents s) (timers s)
    (nextTimer s) v (documentSettings s) (configuration s)
    (stylesheets s) (trace s).

Definition set_documentSettings
    (v : gmap string (Promise (option LanguageSettings))) (s : State)
  : State :=
  mkState (now s) (heap s) (nextCell s) (documents s) (timers s)
    (nextTimer s) (pendingValidationRequests s) v (configuration s)
    (stylesheets s) (trace s).

Definition set_configuration (v : Engine → option LanguageSettings)
    (s : State) : State :=
  mkState (now s) (heap s) (nextCell s) (documents s) (timers s)
    (nextTimer s) (pendingValidationRequests s) (documentSettings s) v
    (stylesheets s) (trace s).

Definition set_stylesheets (v : LanguageModelCache.t Stylesheet)
    (s : State) : State :=
  mkState (now s) (heap s) (nextCell s) (documents s) (timers s)
    (nextTimer s) (pendingValidationRequests s) (documentSettings s)
    (configuration s) v (trace s).

Definition set_trace (v : list Effect) (s : State) : State :=
  mkState (now s) (heap s) (nextCell s) (documents s) (timers s)
    (nextTimer s) (pendingValidationRequests s) (documentSettings s)
    (configuration s) (stylesheets s) v.

(** ** Computations that may throw *)

Definition M (A : Type) : Type := State → Result A * State.

Definition ret {A} (a : A) : M A := λ s, (Ok a, s).

Definition throw {A} (e : Error) : M A := λ s, (Throw e, s).

Definition bind {A B} (m : M A) (f : A → M B) : M B :=
  λ s, match m s with
       | (Ok a, s') => f a s'
       | (Throw e, s') => (Throw e, s')
       end.

Notation "'let*' x ':=' m 'in' k" := (bind m (λ x, k))
  (at level 10, x name, m at level 100, k at level 200).

Definition emit (e : Effect) (s : State) : State :=
  set_trace (e :: trace s) s.

Definition perform (e : Effect) : M unit := λ s, (Ok tt, emit e s).

(** [document.version] and [document.getText()] at this moment. *)
Definition snapshot (s : State) (textDocument : TextDocument) : Snapshot :=
  mkSnapshot textDocument (heap s (cell textDocument)).

Definition read (textDocument : TextDocument) : M Snapshot :=
  λ s, (Ok (snapshot s textDocument), s).

(** [documents.get(uri)] of the document manager. *)
Definition documents_get (u : string) : M (option TextDocument) :=
  λ s, (Ok (documents s !! u), s).

(** ** The dispatch router: server.ts lines 94-109 *)

(** The names every object literal inherits from [Object.prototype]. *)
Definition Object_prototype : list string :=
  [ "constructor"; "__defineGetter__"; "__defineSetter__";
    "hasOwnProperty"; "__lookupGetter__"; "__lookupSetter__";
    "isPrototypeOf"; "propertyIsEnumerable"; "toString"; "valueOf";
    "__proto__"; "toLocaleString" ].

(** The own properties of [languageServices], in declaration order. *)
Definition languageServices_keys : list (string * Engine) :=
  [ ("css", CSS); ("scss", SCSS); ("less", LESS) ].

Definition own (id : string) : option Engine :=
  (list_to_map languageServices_keys : gmap string Engine) !! id.

(** [languageServices[id]]; [None] is [undefined]. *)
Definition languageServices (id : string) : option Service :=
  match own id with
  | Some e => Some (Registered e)
  | None =>
      if bool_decide (id ∈ Object_prototype) then Some (Inherited id)
      else None
  end.

Definition getLanguageService (document : TextDocument) : M Service :=
  match languageServices (languageId document) with
  | Some service => ret service
  | None =>
      let* _ := perform (ConsoleLog ("Document type is " +:+
                  languageId document +:+ ", using css instead.")) in
      ret (Registered CSS)
  end.

(** A method call on what [getLanguageService] returned: a registered
    service runs the method with its current configuration; an
    inherited member has no such method and the call throws. *)
Definition invoke {A} (service : Service) (method : string) (d : Snapshot)
    (body : Engine → option LanguageSettings → Result A) : M A :=
  match service with
  | Registered e =>
      λ s, (body e (configuration s e), emit (Invoked e method d) s)
  | Inherited name =>
      throw ("TypeError: getLanguageService(...)." +:+ method +:+
             " is not a function")
  end.

(** ** The model cache instance: server.ts lines 46-48 *)

Definition parse (d : Snapshot) : M Stylesheet :=
  let* service := getLanguageService (document d) in
  invoke service "parseStylesheet" d (λ e conf, parseStylesheet e conf d).

Definition stylesheets_get (textDocument : TextDocument)
  : M (Model Stylesheet) :=
  λ s, let '(r, c, s') :=
         get parse (now s) (snapshot s textDocument) (stylesheets s) s in
       (r, set_stylesheets c s').

(** ** utils/runner *)

Record CancellationToken := mkToken {
  isCancellationRequested : bool
}.

(** Modelled from the spec: [formatError] of utils/runner is not among
    the sources; the message is "formatted with errorContext and the
    triggering error". *)
Definition formatError (message : string) (err : Error) : string :=
  message +:+ ": " +:+ err.

(** Modelled from the spec: [runSafe] of utils/runner is not among the
    sources.  The computation runs inside a failure boundary: an error
    it raises is caught, formatted with the error context, reported to
    the log, and the fallback value is returned; a request that is
    already cancelled gets the fallback value and nothing is performed
    or reported. *)
Definition runSafe {A} (func : M A) (errorVal : A) (errorMessage : string)
    (token : CancellationToken) (s : State) : A * State :=
  if isCancellationRequested token then (errorVal, s)
  else match func s with
       | (Ok result, s') => (result, s')
       | (Throw e, s') =>
           (errorVal, emit (ConsoleError (formatError errorMessage e)) s')
       end.

(** ** The validation scheduler: server.ts lines 139-168 *)

Definition validationDelayMs : nat := 200.

(** [setTimeout(() => { ... textDocument ... }, delay)]: the event loop
    keeps the due time and the document the callback closes over; the
    handle is fresh. *)
Definition setTimeout (textDocument : TextDocument) (delay : nat)
    (s : State) : nat * State :=
  (nextTimer s,
   set_nextTimer (S (nextTimer s))
     (set_timers (<[nextTimer s := (now s + delay, textDocument)]>
                    (timers s)) s)).

Definition clearTimeout (request : nat) (s : State) : State :=
  set_timers (delete request (timers s)) s.

Definition cleanPendingValidation (textDocument : TextDocument) (s : State)
  : State :=
  match pendingValidationRequests s !! uri textDocument with
  | Some request =>
      let s1 := clearTimeout request s in
      set_pendingValidationRequests
        (delete (uri textDocument) (pendingValidationRequests s1)) s1
  | None => s
  end.

Definition triggerValidation (textDocument : TextDocument) (s : State)
  : State :=
  let s1 := cleanPendingValidation textDocument s in
  let '(request, s2) := setTimeout textDocument validationDelayMs s1 in
  set_pendingValidationRequests
    (<[uri textDocument := request]> (pendingValidationRequests s2)) s2.

(** ** Validation: server.ts lines 35-37, 120-122 and 170-189 *)

Definition getDocumentSettings (textDocument : TextDocument)
  : Promise (option LanguageSettings) :=
  Resolved None.

(** [promise.then(onFulfilled, onRejected)]: the reaction that matches
    the way the promise settled runs; what it throws rejects the
    promise that [then] returns. *)
Definition promise_then {A B} (p : Promise A) (onFulfilled : A → M B)
    (onRejected : Error → M B) (s : State) : Promise B * State :=
  let '(r, s') := match p with
                  | Resolved v => onFulfilled v s
                  | Rejected e => onRejected e s
                  end in
  match r with
  | Ok b => (Resolved b, s')
  | Throw e => (Rejected e, s')
  end.

(** [process.on('unhandledRejection', ...)]. *)
Definition unhandledRejection (e : Error) (s : State) : State :=
  emit (ConsoleError (formatError "Unhandled exception" e)) s.

(** The reaction of [validateTextDocument] to the settings. *)
Definition validation (textDocument : TextDocument)
    (settings : option LanguageSettings) : M unit :=
  let* stylesheet := stylesheets_get textDocument in
  let* service := getLanguageService textDocument in
  let* d := read textDocument in
  let* diagnostics :=
    invoke service "doValidation" d
      (λ e conf, doValidation e conf d (value stylesheet) settings) in
  perform (SendDiagnostics (uri textDocument) diagnostics).

(** The reaction of [validateTextDocument] to a failed settings
    lookup. *)
Definition validationError (textDocument : TextDocument) (e : Error)
  : M unit :=
  perform (ConsoleError
    (formatError ("Error while validating " +:+ uri textDocument) e)).

(** The promise that [then] returns is dropped, so a rejection of it is
    unhandled.  The ghost entry [Validating] records the document as
    it is when the pass starts. *)
Definition validateTextDocument (textDocument : TextDocument) (s : State)
  : State :=
  let s0 := emit (Validating (snapshot s textDocument)) s in
  let settingsPromise := getDocumentSettings textDocument in
  let '(p, s') :=
    promise_then settingsPromise (validation textDocument)
      (validationError textDocument) s0 in
  match p with
  | Resolved _ => s'
  | Rejected e => unhandledRejection e s'
  end.

(** The callback that [triggerValidation] arms. *)
Definition validationCallback (textDocument : TextDocument) (s : State)
  : State :=
  validateTextDocument textDocument
    (set_pendingValidationRequests
       (delete (uri textDocument) (pendingValidationRequests s)) s).

(** The event loop runs timer [id] if it is armed and due. *)
Definition fire (id : nat) (s : State) : State :=
  match timers s !! id with
  | Some (due, textDocument) =>
      if due <=? now s
      then validationCallback textDocument
             (set_timers (delete id (timers s)) s)
      else s
  | None => s
  end.

(** ** The query handlers: server.ts lines 191-364 *)

Inductive Reply :=
| Null
| Array (l : list Answer)
| Object (a : Answer)
| CompletionList (isIncomplete : bool) (items : list VimCompleteItem).

(** A result that is an object or [null]. *)
Definition nullable (o : option Answer) : Reply :=
  match o with
  | Some a => Object a
  | None => Null
  end.

(** The computation that [onCompletion] hands to [runSafe]. *)
Definition computeCompletions (u : string) (position : Position) : M Reply :=
  let* document := documents_get u in
  match document with
  | None => ret Null
  | Some document =>
      let* cssLS := getLanguageService document in
      let* stylesheet := stylesheets_get document in
      let* d := read document in
      let* result :=
        invoke cssLS "doComplete" d
          (λ e conf, doComplete e conf d position (value stylesheet)) in
      ret (CompletionList false (convertCompleteItems result))
  end.

Definition onCompletion (u : string) (position : Position)
    (token : CancellationToken) : State → Reply * State :=
  runSafe (computeCompletions u position) Null
    ("Error while computing completions for " +:+ u) token.

(** The computation that [onHover] hands to [runSafe]. *)
Definition computeHover (u : string) (position : Position) : M Reply :=
  let* document := documents_get u in
  match document with
  | Some document =>
      let* styleSheet := stylesheets_get document in
      let* service := getLanguageService document in
      let* d := read document in
      let* result :=
        invoke service "doHover" d
          (λ e conf, doHover e conf d position (value styleSheet)) in
      ret (nullable result)
  | None => ret Null
  end.

Definition onHover (u : string) (position : Position)
    (token : CancellationToken) : State → Reply * State :=
  runSafe (computeHover u position) Null
    ("Error while computing hover for " +:+ u) token.

(** The computation that [onDocumentSymbol] hands to [runSafe]. *)
Definition computeDocumentSymbols (u : string) : M Reply :=
  let* document := documents_get u in
  match document with
  | Some document =>
      let* stylesheet := stylesheets_get document in
      let* service := getLanguageService document in
      let* d := read document in
      let* result :=
        invoke service "findDocumentSymbols" d
          (λ e conf, findDocumentSymbols e conf d (value stylesheet)) in
      ret (Array result)
  | None => ret (Array [])
  end.

Definition onDocumentSymbol (u : string)
    (token : CancellationToken) : State → Reply * State :=
  runSafe (computeDocumentSymbols u) (Array [])
    ("Error while computing document symbols for " +:+ u) token.

(** The computation that [onDefinition] hands to [runSafe]. *)
Definition computeDefinitions (u : string) (position : Position) : M Reply :=
  let* document := documents_get u in
  match document with
  | Some document =>
      let* stylesheet := stylesheets_get document in
      let* service := getLanguageService document in
      let* d := read document in
      let* result :=
        invoke service "findDefinition" d
          (λ e conf, findDefinition e conf d position (value stylesheet)) in
      ret (nullable result)
  | None => ret Null
  end.

Definition onDefinition (u : string) (position : Position)
    (token : CancellationToken) : State → Reply * State :=
  runSafe (computeDefinitions u position) Null
    ("Error while computing definitions for " +:+ u) token.

(** The computation that [onDocumentHighlight] hands to [runSafe]. *)
Definition computeDocumentHighlights (u : string) (position : Position) : M Reply :=
  let* document := documents_get u in
  match document with
  | Some document =>
      let* stylesheet := stylesheets_get document in
      let* service := getLanguageService document in
      let* d := read document in
      let* result :=
        invoke service "findDocumentHighlights" d
          (λ e conf, findDocumentHighlights e conf d position (value stylesheet)) in
      ret (Array result)
  | None => ret (Array [])
  end.

Definition onDocumentHighlight (u : string) (position : Position)
    (token : CancellationToken) : State → Reply * State :=
  runSafe (computeDocumentHighlights u position) (Array [])
    ("Error while computing document highlights for " +:+ u) token.

(** The computation that [onReferences] hands to [runSafe]. *)
Definition computeReferences (u : string) (position : Position) : M Reply :=
  let* document := documents_get u in
  match document with
  | Some document =>
      let* stylesheet := stylesheets_get document in
      let* service := getLanguageService document in
      let* d := read document in
      let* result :=
        invoke service "findReferences" d
          (λ e conf, findReferences e conf d position (value stylesheet)) in
      ret (Array result)
  | None => ret (Array [])
  end.

Definition onReferences (u : string) (position : Position)
    (token : CancellationToken) : State → Reply * State :=
  runSafe (computeReferences u position) (Array [])
    ("Error while computing references for " +:+ u) token.

(** The computation that [onCodeAction] hands to [runSafe]. *)
Definition computeCodeActions (u : string) (range : Range) (context : CodeActionContext) : M Reply :=
  let* document := documents_get u in
  match document with
  | Some document =>
      let* stylesheet := stylesheets_get document in
      let* service := getLanguageService document in
      let* d := read document in
      let* result :=
        invoke service "doCodeActions" d
          (λ e conf, doCodeActions e conf d range context (value stylesheet)) in
      ret (Array result)
  | None => ret (Array [])
  end.

Definition onCodeAction (u : string) (range : Range) (context : CodeActionContext)
    (token : CancellationToken) : State → Reply * State :=
  runSafe (computeCodeActions u range context) (Array [])
    ("Error while computing code actions for " +:+ u) token.

(** The computation that [onRenameRequest] hands to [runSafe]. *)
Definition computeRenames (u : string) (position : Position) (newName : string) : M Reply :=
  let* document := documents_get u in
  match document with
  | Some document =>
      let* stylesheet := stylesheets_get document in
      let* service := getLanguageService document in
      let* d := read document in
      let* result :=
        invoke service "doRename" d
          (λ e conf, doRename e conf d position newName (value stylesheet)) in
      ret (Object result)
  | None => ret Null
  end.

Definition onRenameRequest (u : string) (position : Position) (newName : string)
    (token : CancellationToken) : State → Reply * State :=
  runSafe (computeRenames u position newName) Null
    ("Error while computing renames for " +:+ u) token.

(** The eight kinds of query, each with the parameters its handler
    reads. *)
Inductive Request :=
| Completion (u : string) (position : Position)
| Hover (u : string) (position : Position)
| DocumentSymbol (u : string)
| GotoDefinition (u : string) (position : Position)
| DocumentHighlight (u : string) (position : Position)
| References (u : string) (position : Position)
| CodeAction (u : string) (range : Range) (context : CodeActionContext)
| Rename (u : string) (position : Position) (newName : string).

Definition handle (r : Request) (token : CancellationToken)
  : State → Reply * State :=
  match r with
  | Completion u position => onCompletion u position token
  | Hover u position => onHover u position token
  | DocumentSymbol u => onDocumentSymbol u token
  | GotoDefinition u position => onDefinition u position token
  | DocumentHighlight u position => onDocumentHighlight u position token
  | References u position => onReferences u position token
  | CodeAction u range context => onCodeAction u range context token
  | Rename u position newName => onRenameRequest u position newName token
  end.

(** The computation a request runs inside the failure boundary. *)
Definition body (r : Request) : M Reply :=
  match r with
  | Completion u position => computeCompletions u position
  | Hover u position => computeHover u position
  | DocumentSymbol u => computeDocumentSymbols u
  | GotoDefinition u position => computeDefinitions u position
  | DocumentHighlight u position => computeDocumentHighlights u position
  | References u position => computeReferences u position
  | CodeAction u range context => computeCodeActions u range context
  | Rename u position newName => computeRenames u position newName
  end.

(** The document a request is about. *)
Definition target (r : Request) : string :=
  match r with
  | Completion u _ | Hover u _ | DocumentSymbol u | GotoDefinition u _
  | DocumentHighlight u _ | References u _ | CodeAction u _ _
  | Rename u _ _ => u
  end.

(** The fallback value each handler passes to [runSafe]. *)
Definition fallback (r : Request) : Reply :=
  match r with
  | Completion _ _ | Hover _ _ | GotoDefinition _ _ | Rename _ _ _ => Null
  | DocumentSymbol _ | DocumentHighlight _ _ | References _ _
  | CodeAction _ _ _ => Array []
  end.

(** The error context each handler passes to [runSafe]. *)
Definition errorContext (r : Request) : string :=
  match r with
  | Completion u _ => "Error while computing completions for " +:+ u
  | Hover u _ => "Error while computing hover for " +:+ u
  | DocumentSymbol u => "Error while computing document symbols for " +:+ u
  | GotoDefinition u _ => "Error while computing definitions for " +:+ u
  | DocumentHighlight u _ =>
      "Error while computing document highlights for " +:+ u
  | References u _ => "Error while computing references for " +:+ u
  | CodeAction u _ _ => "Error while computing code actions for " +:+ u
  | Rename u _ _ => "Error while computing renames for " +:+ u
  end.

(** The language-service method a request ends in. *)
Definition methodOf (r : Request) : string :=
  match r with
  | Completion _ _ => "doComplete"
  | Hover _ _ => "doHover"
  | DocumentSymbol _ => "findDocumentSymbols"
  | GotoDefinition _ _ => "findDefinition"
  | DocumentHighlight _ _ => "findDocumentHighlights"
  | References _ _ => "findReferences"
  | CodeAction _ _ _ => "doCodeActions"
  | Rename _ _ _ => "doRename"
  end.

Definition reply_of {A} (f : A → Reply) (r : Result A) : Result Reply :=
  match r with
  | Ok a => Ok (f a)
  | Throw e => Throw e
  end.

(** That method call, and what the handler makes of its result. *)
Definition answer (r : Request) (e : Engine)
    (conf : option LanguageSettings) (d : Snapshot) (sheet : Stylesheet)
  : Result Reply :=
  match r with
  | Completion _ position =>
      reply_of (λ result, CompletionList false (convertCompleteItems result))
               (doComplete e conf d position sheet)
  | Hover _ position => reply_of nullable (doHover e conf d position sheet)
  | DocumentSymbol _ => reply_of Array (findDocumentSymbols e conf d sheet)
  | GotoDefinition _ position =>
      reply_of nullable (findDefinition e conf d position sheet)
  | DocumentHighlight _ position =>
      reply_of Array (findDocumentHighlights e conf d position sheet)
  | References _ position =>
      reply_of Array (findReferences e conf d position sheet)
  | CodeAction _ range context =>
      reply_of Array (doCodeActions e conf d range context sheet)
  | Rename _ position newName =>
      reply_of Object (doRename e conf d position newName sheet)
  end.

(** ** Document lifecycle and settings: server.ts lines 49-51, 116-118,
    125-137 and 144-152 *)

Definition onDidChangeContent (document : TextDocument) : State → State :=
  triggerValidation document.

(** The three [documents.onDidClose] listeners, in the order they are
    registered. *)
Definition onDidClose (document : TextDocument) (s : State) : State :=
  let s1 :=
    set_stylesheets (onDocumentRemoved document (stylesheets s)) s in
  let s2 :=
    set_documentSettings (delete (uri document) (documentSettings s1)) s1 in
  let s3 := cleanPendingValidation document s2 in
  emit (SendDiagnostics (uri document) []) s3.

Definition settingsFor (e : Engine) (settings : Settings)
  : LanguageSettings :=
  match e with
  | CSS => css settings
  | SCSS => scss settings
  | LESS => less settings
  end.

(** [languageServices[languageId].configure(...)]. *)
Definition configure (e : Engine) (v : LanguageSettings) (s : State)
  : State :=
  set_configuration
    (λ e', if decide (e' = e) then Some v else configuration s e') s.

(** [documents.all()] of the document manager, in the order of the map;
    the order only decides which timer handle each document gets. *)
Definition documents_all (s : State) : list TextDocument :=
  (map_to_list (documents s)).*2.

Definition updateConfiguration (settings : Settings) (s : State) : State :=
  let s1 :=
    foldl (λ acc ke, configure ke.2 (settingsFor ke.2 settings) acc)
          s languageServices_keys in
  let s2 := set_documentSettings ∅ s1 in
  foldl (λ acc document, triggerValidation document acc)
        s2 (documents_all s2).

(** The document manager of vscode-languageserver ([TextDocuments],
    full synchronisation): it owns [documents] and the document
    objects, and fires the listeners above. *)
Definition didOpen (u lang : string) (v : Z) (txt : string) (s : State)
  : State :=
  let document := mkTextDocument u lang (nextCell s) in
  let s1 :=
    set_heap (λ a, if decide (a = nextCell s) then mkContents v txt
                   else heap s a) s in
  let s2 := set_nextCell (S (nextCell s)) s1 in
  onDidChangeContent document
    (set_documents (<[u := document]> (documents s2)) s2).

Definition didChange (u : string) (v : Z) (txt : string) (s : State)
  : State :=
  match documents s !! u with
  | Some document =>
      onDidChangeContent document
        (set_heap (λ a, if decide (a = cell document) then mkContents v txt
                        else heap s a) s)
  | None => s
  end.

Definition didClose (u : string) (s : State) : State :=
  match documents s !! u with
  | Some document =>
      onDidClose document (set_documents (delete u (documents s)) s)
  | None => s
  end.

(** ** What an observer of the trace sees *)

(** The messages sent to [console.error]. *)
Definition errors (s : State) : list string :=
  omap (λ e, match e with ConsoleError m => Some m | _ => None end)
       (trace s).

(** The validation passes started for identity [u], with the document
    as each pass found it. *)
Definition validations (u : string) (s : State) : list Snapshot :=
  omap (λ e, match e with
             | Validating d =>
                 if decide (uri (document d) = u) then Some d else None
             | _ => None
             end) (trace s).

(** The diagnostic sets published for identity [u]. *)
Definition publishes (u : string) (s : State) : list (list Diagnostic) :=
  omap (λ e, match e with
             | SendDiagnostics u' ds =>
                 if decide (u' = u) then Some ds else None
             | _ => None
             end) (trace s).

(** The language-service methods invoked. *)
Definition invocations (s : State) : list (Engine * string * Snapshot) :=
  omap (λ e, match e with
             | Invoked e m d => Some (e, m, d)
             | _ => None
             end) (trace s).

(** ** The event loop *)

Inductive Action :=
| Tick (dt : nat)
| Fire (id : nat)
| Sweep
| DidOpen (u lang : string) (v : Z) (txt : string)
| DidChange (u : string) (v : Z) (txt : string)
| DidClose (u : string)
| DidChangeConfiguration (settings : Settings)
| Query (r : Request) (token : CancellationToken)
| Shutdown.

Definition step (a : Action) (s : State) : State :=
  match a with
  | Tick dt => set_now (now s + dt) s
  | Fire id => fire id s
  | Sweep => set_stylesheets (sweep (now s) (stylesheets s)) s
  | DidOpen u lang v txt => didOpen u lang v txt s
  | DidChange u v txt => didChange u v txt s
  | DidClose u => didClose u s
  | DidChangeConfiguration settings => updateConfiguration settings s
  | Query r token => (handle r token s).2
  | Shutdown => set_stylesheets (dispose (stylesheets s)) s
  end.

Definition run (sched : list Action) (s : State) : State :=
  foldl (λ acc a, step a acc) s sched.

(** The state when the server starts. *)
Definition init : State :=
  mkState 0 (λ _, mkContents 0 "") 0 ∅ ∅ 0 ∅ ∅ (λ _, None)
          (create 10 60) [].

(** ** Frames *)

(** Entries of the trace that are neither an error, nor a publish, nor
    the start of a validation pass. *)
Definition noise (e : Effect) : Prop :=
  match e with
  | ConsoleLog _ | Invoked _ _ _ => True
  | _ => False
  end.

(** [unchanged s s']: everything but the stylesheet cache and the
    trace is the same in [s'] as in [s]. *)
Record unchanged (s s' : State) : Prop := mkUnchanged {
  same_now : now s' = now s;
  same_heap : heap s' = heap s;
  same_nextCell : nextCell s' = nextCell s;
  same_documents : documents s' = documents s;
  same_timers : timers s' = timers s;
  same_nextTimer : nextTimer s' = nextTimer s;
  same_pending : pendingValidationRequests s' = pendingValidationRequests s;
  same_documentSettings : documentSettings s' = documentSettings s;
  same_configuration : configuration s' = configuration s
}.

(** [grows P s s']: moreover the trace grew, by entries that satisfy
    [P]. *)
Record grows (P : Effect → Prop) (s s' : State) : Prop := mkGrows {
  grows_unchanged : unchanged s s';
  grows_trace : ∃ l, trace s' = l ++ trace s ∧ Forall P l
}.

Definition emits (P : Effect → Prop) {A} (m : M A) : Prop :=
  ∀ s r s', m s = (r, s') → grows P s s'.

(** What a query may do: touch the cache and add noise. *)
Definition frame : State → State → Prop := grows noise.

Definition framed {A} (m : M A) : Prop := emits noise m.

(** What a validation pass for identity [u] may add to the trace after
    its start. *)
Definition validation_output (u : string) (e : Effect) : Prop :=
  match e with
  | ConsoleLog _ | Invoked _ _ _ | ConsoleError _ => True
  | SendDiagnostics u' _ => u' = u
  | Validating _ => False
  end.

(** What a query handler may add to the trace. *)
Definition query_output (e : Effect) : Prop :=
  match e with
  | ConsoleLog _ | Invoked _ _ _ | ConsoleError _ => True
  | _ => False
  end.

(** ** Invariants of the scheduler *)

(** The timer table of the event loop and the pending-validation map
    describe the same timers, timer handles are never reused, and the
    document manager files every document under its own URI. *)
Record coherent (s : State) : Prop := mkCoherent {
  timer_pending : ∀ id due d,
    timers s !! id = Some (due, d) →
    pendingValidationRequests s !! uri d = Some id;
  pending_timer : ∀ u id,
    pendingValidationRequests s !! u = Some id →
    ∃ due d, timers s !! id = Some (due, d) ∧ uri d = u;
  timer_fresh : ∀ id, is_Some (timers s !! id) → id < nextTimer s;
  documents_uri : ∀ u d, documents s !! u = Some d → uri d = u
}.

(** No two armed timers are for the same document identity. *)
Definition at_most_one_timer (s : State) : Prop :=
  ∀ id1 id2 due1 due2 d1 d2,
    timers s !! id1 = Some (due1, d1) →
    timers s !! id2 = Some (due2, d2) →
    uri d1 = uri d2 → id1 = id2.

(** No timer is armed for identity [u]. *)
Definition disarmed (u : string) (s : State) : Prop :=
  ∀ id due d, timers s !! id = Some (due, d) → uri d ≠ u.

(** [elsewhere s s']: everything but the timer table and the
    pending-validation map is the same in [s'] as in [s]. *)
Record elsewhere (s s' : State) : Prop := mkElsewhere {
  else_now : now s' = now s;
  else_heap : heap s' = heap s;
  else_nextCell : nextCell s' = nextCell s;
  else_documents : documents s' = documents s;
  else_documentSettings : documentSettings s' = documentSettings s;
  else_configuration : configuration s' = configuration s;
  else_stylesheets : stylesheets s' = stylesheets s;
  else_trace : trace s' = trace s
}.

(** ** Schedules *)

(** Processing [a] in state [s] calls [triggerValidation] for a
    document of identity [u]: the document is opened, or it is open and
    changes, or it is open and the settings change. *)
Definition triggers (u : string) (a : Action) (s : State) : Prop :=
  match a with
  | DidOpen u' _ _ _ => u' = u
  | DidChange u' _ _ => u' = u ∧ is_Some (documents s !! u)
  | DidChangeConfiguration _ => is_Some (documents s !! u)
  | _ => False
  end.

#[global] Instance triggers_dec u a s : Decision (triggers u a s).
Proof. destruct a; simpl; apply _. Defined.


(** [a] opens identity [u]. *)
Definition opens (u : string) (a : Action) : Prop :=
  match a with
  | DidOpen u' _ _ _ => u' = u
  | _ => False
  end.





(** [m] keeps the invariant of the stylesheet cache. *)
Definition keeps {A} (m : M A) : Prop :=
  ∀ s r s', m s = (r, s') →
    inv (now s) (stylesheets s) → inv (now s') (stylesheets s').

(** ** Further invariants *)

(** Every armed timer belongs to the document object that is open under
    its URI. *)
Definition live (s : State) : Prop :=
  ∀ id due d,
    timers s !! id = Some (due, d) → documents s !! uri d = Some d.

(** The diagnostic set that was published last for identity [u], if
    any. *)
Definition displayed (u : string) (s : State) : option (list Diagnostic) :=
  head (publishes u s).

End Server.

(** ** A small library instance for concrete runs

    Stylesheets are the document text; parsing fails on the text
    "@unparsable", validation fails on the stylesheet "@invalid", and
    every positional query fails at position 13. *)

Definition demo_query {A} (position : nat) (a : A) : Result A :=
  if position =? 13 then Throw "query failed" else Ok a.

Definition demo : Library := {|
  Stylesheet := string;
  LanguageSettings := nat;
  Diagnostic := string;
  Position := nat;
  Range := nat * nat;
  CodeActionContext := unit;
  Answer := string;
  CompletionItem := string;
  VimCompleteItem := string;
  parseStylesheet := λ _ _ d,
    if String.eqb (text (contents d)) "@unparsable"
    then Throw "parse failed" else Ok (text (contents d));
  doValidation := λ _ _ _ sheet _,
    if String.eqb sheet "@invalid" then Throw "validation failed"
    else if String.eqb sheet "" then Ok [] else Ok ["lint: " +:+ sheet];
  doComplete := λ _ _ _ position sheet, demo_query position [sheet];
  doHover := λ _ _ _ position sheet, demo_query position (Some sheet);
  findDocumentSymbols := λ _ _ _ sheet,
    if String.eqb sheet "@nosymbols" then Throw "query failed"
    else Ok [sheet];
  findDefinition := λ _ _ _ position sheet, demo_query position (Some sheet);
  findDocumentHighlights := λ _ _ _ position sheet,
    demo_query position [sheet];
  findReferences := λ _ _ _ position sheet, demo_query position [sheet];
  doCodeActions := λ _ _ _ range _ sheet, demo_query range.1 [sheet];
  doRename := λ _ _ _ position newName _, demo_query position newName;
  convertCompleteItems := λ items, items
|}.

(** Two documents and a few schedules for concrete runs. *)

Definition a_css : string := "file:///a.css".
Definition b_less : string := "file:///b.less".

Definition a_doc : TextDocument := mkTextDocument a_css "css" 0.

(** [a.css] is opened and edited twice; the calls are 150 ms and 199 ms
    apart. *)
Definition edits : list (@Action demo) :=
  [ DidOpen a_css "css" 1 ".x{}"; Tick 150;
    DidChange a_css 2 ".y{}"; Tick 199 ].

Definition last_edit : @Action demo := DidChange a_css 3 ".z{}".

(** Both documents open, [a.css] first. *)
Definition both_open : @State demo :=
  run [ DidOpen a_css "css" 1 ".x{}"; Tick 100;
        DidOpen b_less "less" 1 "@c: red;" ] init.

(** Only [b.less] open. *)
Definition b_open : @State demo :=
  run [ DidOpen b_less "less" 1 "@c: red;" ] init.

(** What happens after [a.css] is closed: its old timer would be due,
    [b.less] is validated, and the settings change. *)
Definition after_close : list (@Action demo) :=
  [ Tick 200; Fire 0; Fire 1; DidChangeConfiguration (@mkSettings demo 1 2 3);
    DidChange a_css 2 ".y{}"; Tick 200; Fire 2 ].

(** The server as it starts, with the demo library. *)
Definition started : @State demo := init.

(** A hover request on [a.css] at the position where the demo library
    fails. *)
Definition failing_hover : @Request demo := @Hover demo a_css 13.




(** A document of a language whose identifier names a member that
    [languageServices] inherits, and the state in which it is open. *)
Definition c_doc : TextDocument :=
  mkTextDocument "file:///c.txt" "constructor" 0.

Definition c_open : @State demo :=
  run [ DidOpen "file:///c.txt" "constructor" 1 ".x{}" ] init.

(** A document of a language that [languageServices] does not know. *)
Definition d_doc : TextDocument :=
  mkTextDocument "file:///d.sass" "sass" 0.

(** The second document of [both_open]. *)
Definition b_doc : TextDocument := mkTextDocument b_less "less" 1.

(** [a.css] is opened, validated and closed. *)
Definition validated_then_closed : list (@Action demo) :=
  [ DidOpen a_css "css" 1 ".x{}"; Tick 200; Fire 0; DidClose a_css ].

(** The capabilities of a client that supports snippets, of one that
    says nothing about completion, of one whose textDocument entry is
    null, and of one whose textDocument entry has a property named
    hasOwnProperty. *)
Definition snippet_client : JsValue :=
  JsObject
    [ ("workspace", JsObject [ ("applyEdit", JsBoolean true) ]);
      ("textDocument",
       JsObject
         [ ("completion",
            JsObject
              [ ("completionItem",
                 JsObject [ ("snippetSupport", JsBoolean true) ]) ]) ]) ].

Definition plain_client : JsValue :=
  JsObject [ ("textDocument", JsObject [ ("hover", JsObject []) ]) ].

Definition null_client : JsValue :=
  JsObject [ ("textDocument", JsNull) ].

Definition shadowing_client : JsValue :=
  JsObject
    [ ("textDocument", JsObject [ ("hasOwnProperty", JsBoolean true) ]) ].

Definition snippetSupportName : string :=
  "textDocument.completion.completionItem.snippetSupport".

(** * Properties of the language model cache *)

Section CacheProperties.
Context {M : Type}.

Import LanguageModelCache.

Implicit Types (l : list (string * Entry M)) (c : t M) (e : Entry M).

Lemma find_None u l : find u l = None ↔ u ∉ l.*1.
Proof.
  induction l as [|[k e] l IH]; simpl.
  - split; [intros _; apply not_elem_of_nil|done].
  - rewrite not_elem_of_cons. case_decide.
    + split; [done|]. intros [? _]. congruence.
    + rewrite IH.
      split; [intros ?; split; [congruence|done]|by intros [_ ?]].
Qed.

Lemma find_Some u e l : find u l = Some e → (u, e) ∈ l.
Proof.
  induction l as [|[k e'] l IH]; simpl; [done|].
  case_decide; [intros [= <-]; subst; left|right; auto].
Qed.


Lemma assign_present u e e' l :
  find u l = Some e' →
  length (assign u e l) = length l ∧ (assign u e l).*1 = l.*1.
Proof.
  induction l as [|[k e''] l IH]; simpl; [done|].
  case_decide; simpl; [done|].
  intros [Hlen Hkeys]%IH. split; by f_equal.
Qed.

Lemma assign_absent u e l : find u l = None → assign u e l = l ++ [(u, e)].
Proof.
  induction l as [|[k e'] l IH]; simpl; [done|].
  case_decide; [done|]. intros. f_equal. auto.
Qed.

Lemma elem_of_assign k e' u e l :
  (k, e') ∈ assign u e l → (k, e') = (u, e) ∨ (k, e') ∈ l.
Proof.
  induction l as [|[k0 e0] l IH]; simpl.
  - intros ->%list_elem_of_singleton. by left.
  - case_decide.
    + intros [->|?]%elem_of_cons; [subst; by left|right; by right].
    + intros [->|[?|?]%IH]%elem_of_cons;
        [right; left|by left|right; by right].
Qed.

Lemma assign_keys u e l : NoDup l.*1 → NoDup (assign u e l).*1.
Proof.
  intros Hnd. destruct (find u l) as [e'|] eqn:Hf.
  - by rewrite (proj2 (assign_present u e e' l Hf)).
  - rewrite (assign_absent _ _ _ Hf), fmap_app. simpl.
    apply NoDup_app. split_and!; [done| |apply NoDup_singleton].
    intros k Hk ->%list_elem_of_singleton. by apply find_None in Hf.
Qed.

Lemma elem_of_remove k e u l :
  (k, e) ∈ remove u l ↔ k ≠ u ∧ (k, e) ∈ l.
Proof.
  induction l as [|[k0 e0] l IH]; simpl.
  - split; [by intros ?%elem_of_nil|by intros [_ ?%elem_of_nil]].
  - case_decide; rewrite ?elem_of_cons, IH; intuition congruence.
Qed.


Lemma remove_length u l : length (remove u l) ≤ length l.
Proof.
  induction l as [|[k0 e0] l IH]; simpl; [done|].
  case_decide; simpl; lia.
Qed.

Lemma remove_shorter u e l : (u, e) ∈ l → length (remove u l) < length l.
Proof.
  induction l as [|[k0 e0] l IH]; simpl; [by intros ?%elem_of_nil|].
  intros [[= <- <-]|Hin]%elem_of_cons.
  - rewrite decide_True by done. pose proof (remove_length u l). lia.
  - case_decide; simpl; [pose proof (remove_length u l)|apply IH in Hin];
      lia.
Qed.

Lemma remove_keys u l : NoDup l.*1 → NoDup (remove u l).*1.
Proof.
  induction l as [|[k0 e0] l IH]; simpl; [done|].
  intros [Hnin Hnd]%NoDup_cons. case_decide; simpl; [auto|].
  apply NoDup_cons. split; [|auto].
  intros ([k e] & -> & [_ Hin]%elem_of_remove)%list_elem_of_fmap.
  apply Hnin. apply list_elem_of_fmap. by exists (k, e).
Qed.

Lemma oldest_elem l k e : oldest l = Some (k, e) → (k, e) ∈ l.
Proof.
  revert k e. induction l as [|[k0 e0] l IH]; intros k e; simpl; [done|].
  destruct (oldest l) as [[k' e']|].
  - case_match; intros [= <- <-]; [right; by apply IH|left].
  - intros [= <- <-]. left.
Qed.

Lemma oldest_None l : oldest l = None → l = [].
Proof.
  destruct l as [|[k0 e0] l]; simpl; [done|].
  destruct (oldest l) as [[k' e']|]; [by case_match|done].
Qed.



Lemma evict_sub fuel cap l k e :
  (k, e) ∈ evict fuel cap l → (k, e) ∈ l.
Proof.
  revert l. induction fuel as [|fuel IH]; intros l; simpl; [done|].
  case_match; [done|].
  destruct (oldest l) as [[k' e']|]; [|done].
  by intros [_ ?]%IH%elem_of_remove.
Qed.

Lemma evict_keys fuel cap l : NoDup l.*1 → NoDup (evict fuel cap l).*1.
Proof.
  revert l. induction fuel as [|fuel IH]; intros l Hnd; simpl; [done|].
  case_match; [done|].
  destruct (oldest l) as [[k' e']|]; [|done].
  by apply IH, remove_keys.
Qed.

Lemma evict_length fuel cap l :
  length l ≤ fuel + cap → length (evict fuel cap l) ≤ cap.
Proof.
  revert l. induction fuel as [|fuel IH]; intros l Hlen; simpl; [done|].
  destruct (length l <=? cap) eqn:Hfit; [by apply Nat.leb_le|].
  destruct (oldest l) as [[k' e']|] eqn:Hold.
  - apply IH. pose proof (remove_shorter _ _ _ (oldest_elem _ _ _ Hold)).
    lia.
  - rewrite (oldest_None _ Hold). simpl. lia.
Qed.

Lemma inv_capacityCheck clock c :
  NoDup (entries c).*1 → 0 < capacity c →
  (∀ k e, (k, e) ∈ entries c → lastUsedAt e ≤ clock) →
  inv clock (capacityCheck c).
Proof.
  intros Hnd Hcap Hused. split; simpl; [| |done|].
  - by apply evict_keys.
  - apply evict_length. lia.
  - intros k e Hin%evict_sub. by eapply Hused.
Qed.








Lemma get_inv {St : Type} (compute : Snapshot → St → Result M * St)
    clock d c (s : St) r c' s' :
  inv clock c → get compute clock d c s = (r, c', s') → inv clock c'.
Proof.
  intros Hc. pose proof Hc as [Hkeys Hsize Hcap Hused]. unfold get.
  destruct (hit d c) as [e|].
  - intros [= <- <- <-]. apply inv_capacityCheck; simpl; [|done|].
    + by apply assign_keys.
    + intros k e' [[= -> ->]|Hin]%elem_of_assign; [done|by eapply Hused].
  - destruct (compute d s) as [[m0|err] s0]; intros [= <- <- <-]; [|done].
    apply inv_capacityCheck; simpl; [|done|].
    + by apply assign_keys.
    + intros k e' [[= -> ->]|Hin]%elem_of_assign; [done|by eapply Hused].
Qed.

End CacheProperties.

(** * Properties *)

Section Properties.
Context `{L : Library}.

Import LanguageModelCache.

Implicit Types (s : State) (u : string) (textDocument : TextDocument).

(** ** The dispatch router *)

Lemma own_spec id :
  own id = if decide (id = "css") then Some CSS
           else if decide (id = "scss") then Some SCSS
           else if decide (id = "less") then Some LESS
           else None.
Proof.
  unfold own, languageServices_keys. simpl.
  repeat case_decide; subst; simplify_map_eq; done.
Qed.

(** For a language identifier that is not an inherited member name the
    router is lenient: a registered service, or the css service after a
    notice. *)
Lemma getLanguageService_lenient textDocument s :
  languageId textDocument ∉ Object_prototype →
  (∃ e, own (languageId textDocument) = Some e ∧
        getLanguageService textDocument s = (Ok (Registered e), s)) ∨
  (own (languageId textDocument) = None ∧
   getLanguageService textDocument s =
     (Ok (Registered CSS),
      emit (ConsoleLog ("Document type is " +:+ languageId textDocument
                        +:+ ", using css instead.")) s)).
Proof.
  intros Hid. unfold getLanguageService, languageServices.
  destruct (own (languageId textDocument)) as [e|] eqn:Hown.
  - left. by exists e.
  - right. rewrite bool_decide_eq_false_2 by done. done.
Qed.

(** For a language identifier that names an inherited member, the lookup
    finds that member: nothing is logged, and what is returned is not a
    language service. *)
Lemma getLanguageService_inherited textDocument s :
  languageId textDocument ∈ Object_prototype →
  own (languageId textDocument) = None ∧
  getLanguageService textDocument s =
    (Ok (Inherited (languageId textDocument)), s).
Proof.
  intros Hid. unfold getLanguageService, languageServices.
  assert (own (languageId textDocument) = None) as Hown.
  { rewrite own_spec. unfold Object_prototype in Hid.
    repeat (apply elem_of_cons in Hid as [->|Hid]; [done|]).
    by apply elem_of_nil in Hid. }
  rewrite Hown. by rewrite bool_decide_eq_true_2.
Qed.

(** C6, at the input where the router fails: a document whose language
    identifier is "constructor" has no registered service, yet no
    notice is logged and what is returned is not the css service but
    the member that [languageServices] inherits under that name. *)
Theorem getLanguageService_inherited_member s :
  own "constructor" = None ∧
  getLanguageService (mkTextDocument "file:///a.css" "constructor" 0) s =
    (Ok (Inherited "constructor"), s).
Proof. split; reflexivity. Qed.

(** ** The scheduler *)

(** C9: [cleanPendingValidation] for a document with no pending
    validation timer returns the state it was given; in particular the
    pending-validation map is unchanged and nothing is raised. *)
Theorem cleanPendingValidation_noop textDocument s :
  pendingValidationRequests s !! uri textDocument = None →
  cleanPendingValidation textDocument s = s.
Proof. intros Hnone. unfold cleanPendingValidation. by rewrite Hnone. Qed.

(** ** The query handlers *)

Lemma handle_runSafe (r : Request) token :
  handle r token = runSafe (body r) (fallback r) (errorContext r) token.
Proof. by destruct r. Qed.

Lemma body_without_document (r : Request) s :
  documents s !! target r = None → body r s = (Ok (fallback r), s).
Proof.
  intros Hnone.
  destruct r; simpl in *;
    unfold computeCompletions, computeHover, computeDocumentSymbols,
      computeDefinitions, computeDocumentHighlights, computeReferences,
      computeCodeActions, computeRenames, bind, documents_get;
    by rewrite Hnone.
Qed.

(** C10: when the document store has no document for the requested
    identity, every handler returns its fallback value ([fallback]: null
    for completion, hover, definition and rename, the empty list for
    document symbols, document highlights, references and code actions)
    and leaves the state as it was: no language-service method is
    invoked and nothing is logged. *)
Theorem query_without_document (r : Request) token s :
  documents s !! target r = None →
  handle r token s = (fallback r, s) ∧
  invocations (handle r token s).2 = invocations s ∧
  errors (handle r token s).2 = errors s.
Proof.
  intros Hnone.
  assert (handle r token s = (fallback r, s)) as ->; [|done].
  rewrite handle_runSafe. unfold runSafe.
  rewrite (body_without_document r s Hnone).
  by destruct (isCancellationRequested token).
Qed.

(** ** Frame lemmas: what the computations of a query leave alone *)

Lemma unchanged_refl s : unchanged s s.
Proof. by split. Qed.

Lemma unchanged_trans s1 s2 s3 :
  unchanged s1 s2 → unchanged s2 s3 → unchanged s1 s3.
Proof. intros [] []. split; congruence. Qed.

Lemma unchanged_emit (e : Effect) s : unchanged s (emit e s).
Proof. by split. Qed.

Lemma unchanged_set_stylesheets c s : unchanged s (set_stylesheets c s).
Proof. by split. Qed.

Lemma grows_refl P s : grows P s s.
Proof. split; [apply unchanged_refl|]. by exists []. Qed.

Lemma grows_trans P s1 s2 s3 : grows P s1 s2 → grows P s2 s3 → grows P s1 s3.
Proof.
  intros [Hu1 (l1 & Ht1 & Hn1)] [Hu2 (l2 & Ht2 & Hn2)].
  split; [by eapply unchanged_trans|].
  exists (l2 ++ l1). split.
  - rewrite Ht2, Ht1. by rewrite (assoc_L (++)).
  - by apply Forall_app.
Qed.

Lemma grows_mono (P Q : Effect → Prop) s s' :
  (∀ e, P e → Q e) → grows P s s' → grows Q s s'.
Proof.
  intros HPQ [Hu (l & Ht & Hl)]. split; [done|].
  exists l. split; [done|]. by eapply Forall_impl.
Qed.

Lemma grows_emit (P : Effect → Prop) (e : Effect) s :
  P e → grows P s (emit e s).
Proof.
  intros He. split; [apply unchanged_emit|].
  exists [e]. split; [done|]. by constructor.
Qed.

Lemma grows_set_stylesheets P c s : grows P s (set_stylesheets c s).
Proof. split; [apply unchanged_set_stylesheets|]. by exists []. Qed.

Lemma emits_mono (P Q : Effect → Prop) {A} (m : M A) :
  (∀ e, P e → Q e) → emits P m → emits Q m.
Proof. intros HPQ Hm s r s' Hr. eapply grows_mono; [done|by eapply Hm]. Qed.

Lemma emits_perform (P : Effect → Prop) (e : Effect) :
  P e → emits P (perform e).
Proof. intros He s r s' [= <- <-]. by apply grows_emit. Qed.

Lemma emits_bind P {A B} (m : M A) (f : A → M B) :
  emits P m → (∀ a, emits P (f a)) → emits P (bind m f).
Proof.
  intros Hm Hf s r s'. unfold bind.
  destruct (m s) as [[a|e] s1] eqn:Hms; intros Hr.
  - eapply grows_trans; [by eapply Hm | by eapply Hf].
  - injection Hr as <- <-. by eapply Hm.
Qed.

Lemma framed_ret {A} (a : A) : framed (ret a).
Proof. intros s r s' [= <- <-]. apply grows_refl. Qed.

Lemma framed_throw {A} (e : Error) : framed (throw (A:=A) e).
Proof. intros s r s' [= <- <-]. apply grows_refl. Qed.

Lemma framed_bind {A B} (m : M A) (f : A → M B) :
  framed m → (∀ a, framed (f a)) → framed (bind m f).
Proof. apply emits_bind. Qed.

Lemma framed_read textDocument : framed (read textDocument).
Proof. intros s r s' [= <- <-]. apply grows_refl. Qed.

Lemma framed_documents_get u : framed (documents_get u).
Proof. intros s r s' [= <- <-]. apply grows_refl. Qed.

Lemma framed_getLanguageService textDocument :
  framed (getLanguageService textDocument).
Proof.
  unfold getLanguageService.
  destruct (languageServices _); [apply framed_ret|].
  apply framed_bind; [|intros; apply framed_ret].
  intros s r s' [= <- <-]. by apply grows_emit.
Qed.

Lemma framed_invoke {A} service method d
    (f : Engine → option LanguageSettings → Result A) :
  framed (invoke service method d f).
Proof.
  destruct service; simpl; [|apply framed_throw].
  intros s r s' [= <- <-]. by apply grows_emit.
Qed.

Lemma framed_parse d : framed (parse d).
Proof.
  apply framed_bind; [apply framed_getLanguageService|].
  intros; apply framed_invoke.
Qed.

Lemma framed_stylesheets_get textDocument :
  framed (stylesheets_get textDocument).
Proof.
  intros s r s'. unfold stylesheets_get, get.
  destruct (hit _ _); [intros [= <- <-]; apply grows_set_stylesheets|].
  destruct (parse _ s) as [[m|e] s1] eqn:Hp; intros [= <- <-];
    (eapply grows_trans; [by eapply framed_parse|apply grows_set_stylesheets]).
Qed.

Create HintDb framed discriminated.
Hint Resolve framed_ret framed_throw framed_read framed_documents_get
  framed_getLanguageService framed_invoke framed_parse
  framed_stylesheets_get : framed.

Ltac framed :=
  repeat first
    [ apply framed_bind; [|intros ?]
    | progress eauto with framed
    | match goal with
      | |- framed (match ?x with _ => _ end) => destruct x
      end ].

Lemma framed_body (r : Request) : framed (body r).
Proof.
  destruct r; simpl;
    unfold computeCompletions, computeHover, computeDocumentSymbols,
      computeDefinitions, computeDocumentHighlights, computeReferences,
      computeCodeActions, computeRenames; framed.
Qed.

Lemma omap_noise {A} (f : Effect → option A) (l : list Effect) :
  (∀ e, noise e → f e = None) → Forall noise l → omap f l = [].
Proof.
  intros Hf Hl. induction Hl as [|e l He _ IH]; [done|].
  simpl. by rewrite (Hf e He).
Qed.

Lemma frame_errors s s' : frame s s' → errors s' = errors s.
Proof.
  intros [_ (l & Ht & Hl)]. unfold errors.
  rewrite Ht, omap_app, omap_noise; [done| |done].
  by intros [].
Qed.

Lemma frame_validations u s s' :
  frame s s' → validations u s' = validations u s.
Proof.
  intros [_ (l & Ht & Hl)]. unfold validations.
  rewrite Ht, omap_app, omap_noise; [done| |done].
  by intros [].
Qed.

Lemma frame_publishes u s s' :
  frame s s' → publishes u s' = publishes u s.
Proof.
  intros [_ (l & Ht & Hl)]. unfold publishes.
  rewrite Ht, omap_app, omap_noise; [done| |done].
  by intros [].
Qed.

(** C5: when the request is not cancelled and the computation of a
    query raises [e], the handler returns the fallback value of its
    kind, and the error log grows by exactly one message: [e] formatted
    with the error context of the query. *)
Theorem guard_returns_fallback (r : Request) s e s' :
  body r s = (Throw e, s') →
  let out := handle r (mkToken false) s in
  out.1 = fallback r ∧
  out.2 = emit (ConsoleError (formatError (errorContext r) e)) s' ∧
  errors out.2 = formatError (errorContext r) e :: errors s.
Proof.
  intros Hbody. simpl. rewrite handle_runSafe. unfold runSafe. simpl.
  rewrite Hbody. simpl. split_and!; try done.
  unfold errors at 1. simpl. f_equal.
  apply frame_errors. by eapply framed_body.
Qed.

(** With the document open under a registered service and its stylesheet
    at hand, the computation of a query is the method call of its kind:
    it raises exactly when the language service does. *)
Lemma getLanguageService_registered textDocument e s :
  own (languageId textDocument) = Some e →
  getLanguageService textDocument s = (Ok (Registered e), s).
Proof.
  intros Hown. unfold getLanguageService, languageServices. by rewrite Hown.
Qed.

Lemma body_registered (r : Request) s textDocument e sheet s1 :
  documents s !! target r = Some textDocument →
  own (languageId textDocument) = Some e →
  stylesheets_get textDocument s = (Ok sheet, s1) →
  body r s =
    (answer r e (configuration s e) (snapshot s textDocument) (value sheet),
     emit (Invoked e (methodOf r) (snapshot s textDocument)) s1).
Proof.
  intros Hdoc Hown Hget.
  destruct (grows_unchanged _ _ _ (framed_stylesheets_get _ _ _ _ Hget))
    as [_ Hheap _ _ _ _ _ _ Hconf].
  assert (snapshot s1 textDocument = snapshot s textDocument) as Hsnap
    by (unfold snapshot; by rewrite Hheap).
  destruct r; simpl in *;
    unfold computeCompletions, computeHover, computeDocumentSymbols,
      computeDefinitions, computeDocumentHighlights, computeReferences,
      computeCodeActions, computeRenames, bind, documents_get, read;
    rewrite Hdoc, ?(getLanguageService_registered _ _ _ Hown), Hget,
      ?(getLanguageService_registered _ _ _ Hown);
    simpl; rewrite Hsnap, Hconf;
    match goal with |- context [reply_of _ ?call] => by destruct call end.
Qed.

(** ** What the scheduler operations do to the timers *)

Lemma cleanPendingValidation_timers textDocument s :
  timers (cleanPendingValidation textDocument s) =
    match pendingValidationRequests s !! uri textDocument with
    | Some id => delete id (timers s)
    | None => timers s
    end.
Proof. unfold cleanPendingValidation. by destruct (_ !! _). Qed.

Lemma cleanPendingValidation_pending textDocument s :
  pendingValidationRequests (cleanPendingValidation textDocument s) =
    delete (uri textDocument) (pendingValidationRequests s).
Proof.
  unfold cleanPendingValidation.
  destruct (_ !! _) eqn:Hp; [done|]. by rewrite delete_id.
Qed.

Lemma cleanPendingValidation_nextTimer textDocument s :
  nextTimer (cleanPendingValidation textDocument s) = nextTimer s.
Proof. unfold cleanPendingValidation. by destruct (_ !! _). Qed.

Lemma cleanPendingValidation_elsewhere textDocument s :
  elsewhere s (cleanPendingValidation textDocument s).
Proof. unfold cleanPendingValidation. by destruct (_ !! _). Qed.

Lemma triggerValidation_timers textDocument s :
  timers (triggerValidation textDocument s) =
    <[nextTimer s := (now s + validationDelayMs, textDocument)]>
      (match pendingValidationRequests s !! uri textDocument with
       | Some id => delete id (timers s)
       | None => timers s
       end).
Proof.
  unfold triggerValidation, setTimeout. simpl.
  rewrite cleanPendingValidation_timers, cleanPendingValidation_nextTimer.
  by destruct (cleanPendingValidation_elsewhere textDocument s) as [-> _ _ _ _ _ _ _].
Qed.

Lemma triggerValidation_pending textDocument s :
  pendingValidationRequests (triggerValidation textDocument s) =
    <[uri textDocument := nextTimer s]> (pendingValidationRequests s).
Proof.
  unfold triggerValidation, setTimeout. simpl.
  rewrite cleanPendingValidation_pending, cleanPendingValidation_nextTimer.
  apply insert_delete_eq.
Qed.

Lemma triggerValidation_nextTimer textDocument s :
  nextTimer (triggerValidation textDocument s) = S (nextTimer s).
Proof.
  unfold triggerValidation, setTimeout. simpl.
  by rewrite cleanPendingValidation_nextTimer.
Qed.

Lemma triggerValidation_elsewhere textDocument s :
  elsewhere s (triggerValidation textDocument s).
Proof.
  unfold triggerValidation, setTimeout. simpl.
  by destruct (cleanPendingValidation_elsewhere textDocument s).
Qed.

(** ** The invariant is kept *)

Lemma coherent_init : coherent init.
Proof.
  split; simpl; intros *; rewrite ?lookup_empty; try done.
Qed.

Lemma coherent_unchanged s s' : unchanged s s' → coherent s → coherent s'.
Proof.
  intros [_ _ _ Hd Ht Hn Hp _ _] [H1 H2 H3 H4].
  split; rewrite ?Hd, ?Ht, ?Hn, ?Hp; done.
Qed.

Lemma coherent_cleanPendingValidation textDocument s :
  coherent s → coherent (cleanPendingValidation textDocument s).
Proof.
  intros [H1 H2 H3 H4].
  destruct (cleanPendingValidation_elsewhere textDocument s) as [_ _ _ Hd _ _ _ _].
  split; rewrite ?Hd, ?cleanPendingValidation_timers,
    ?cleanPendingValidation_pending, ?cleanPendingValidation_nextTimer;
    [| | |done].
  - intros id due d Hid.
    assert (timers s !! id = Some (due, d)) as Hs.
    { destruct (_ !! uri textDocument); [|done].
      by apply lookup_delete_Some in Hid as [_ ?]. }
    destruct (decide (uri d = uri textDocument)) as [Heq|Hne].
    + rewrite <-Heq, (H1 _ _ _ Hs) in Hid.
      by rewrite lookup_delete_eq in Hid.
    + rewrite lookup_delete_ne by done. by eapply H1.
  - intros u id [Hne Hp]%lookup_delete_Some.
    destruct (H2 _ _ Hp) as (due & d & Ht & Hu).
    exists due, d. split; [|done].
    destruct (_ !! uri textDocument) as [id0|] eqn:Hp0; [|done].
    rewrite lookup_delete_ne; [done|].
    intros ->. destruct (H2 _ _ Hp0) as (due0 & d0 & Ht0 & Hu0).
    congruence.
  - intros id [x Hid]. apply H3.
    destruct (_ !! uri textDocument); [|by eexists].
    apply lookup_delete_Some in Hid as [_ ?]. by eexists.
Qed.

Lemma coherent_triggerValidation textDocument s :
  coherent s → coherent (triggerValidation textDocument s).
Proof.
  intros Hs. pose proof (coherent_cleanPendingValidation textDocument _ Hs) as [H1 H2 H3 H4].
  destruct Hs as [G1 G2 G3 G4].
  rewrite cleanPendingValidation_timers, cleanPendingValidation_pending,
    ?cleanPendingValidation_nextTimer in *.
  destruct (triggerValidation_elsewhere textDocument s) as [_ _ _ Hd _ _ _ _].
  split; rewrite ?Hd, ?triggerValidation_timers,
    ?triggerValidation_pending, ?triggerValidation_nextTimer; [| | |done].
  - intros id due d [[<- [= <- <-]]|[Hne Hid]]%lookup_insert_Some.
    + by rewrite lookup_insert_eq.
    + specialize (H1 _ _ _ Hid).
      apply lookup_delete_Some in H1 as [Hu Hp].
      by rewrite lookup_insert_ne.
  - intros u id [[<- <-]|[Hne Hp]]%lookup_insert_Some.
    + exists (now s + validationDelayMs), textDocument.
      by rewrite lookup_insert_eq.
    + destruct (H2 u id) as (due & d & Ht & Hu).
      { by rewrite lookup_delete_ne. }
      exists due, d. split; [|done].
      rewrite lookup_insert_ne; [done|].
      intros <-. assert (nextTimer s < nextTimer s); [|lia].
      apply H3. by eexists.
  - intros id [x [[<- _]|[Hne Hid]]%lookup_insert_Some]; [lia|].
    assert (id < nextTimer s); [|lia]. apply H3. by eexists.
Qed.

(** ** A validation pass *)

Lemma noise_validation_output u (e : Effect) :
  noise e → validation_output u e.
Proof. by destruct e. Qed.

Lemma framed_validation_output u {A} (m : M A) :
  framed m → emits (validation_output u) m.
Proof. apply emits_mono, noise_validation_output. Qed.

Lemma emits_validation textDocument settings :
  emits (validation_output (uri textDocument))
        (validation textDocument settings).
Proof.
  unfold validation.
  repeat (apply emits_bind;
          [apply framed_validation_output; eauto with framed|intros ?]).
  by apply emits_perform.
Qed.

Lemma validateTextDocument_grows textDocument s :
  grows (validation_output (uri textDocument))
        (emit (Validating (snapshot s textDocument)) s)
        (validateTextDocument textDocument s).
Proof.
  unfold validateTextDocument, promise_then, getDocumentSettings.
  destruct (validation _ _ _) as [[[]|e] s'] eqn:Hv;
    pose proof (emits_validation _ _ _ _ _ Hv) as Hg; [done|].
  eapply grows_trans; [done|]. by apply grows_emit.
Qed.

Lemma validateTextDocument_unchanged textDocument s :
  unchanged s (validateTextDocument textDocument s).
Proof.
  eapply unchanged_trans;
    [|apply (grows_unchanged _ _ _ (validateTextDocument_grows _ _))].
  apply unchanged_emit.
Qed.

Lemma validateTextDocument_validations u textDocument s :
  validations u (validateTextDocument textDocument s) =
    (if decide (uri textDocument = u) then [snapshot s textDocument]
     else []) ++ validations u s.
Proof.
  destruct (validateTextDocument_grows textDocument s)
    as [_ (l & Ht & Hl)].
  unfold validations. rewrite Ht, omap_app. simpl.
  assert (omap (λ e, match e with
                     | Validating d =>
                         if decide (uri (document d) = u) then Some d
                         else None
                     | _ => None
                     end) l = []) as ->.
  { clear Ht. induction Hl as [|e l He _ IH]; [done|]. by destruct e. }
  by case_decide.
Qed.

Lemma validateTextDocument_publishes u textDocument s :
  uri textDocument ≠ u →
  publishes u (validateTextDocument textDocument s) = publishes u s.
Proof.
  intros Hne.
  destruct (validateTextDocument_grows textDocument s)
    as [_ (l & Ht & Hl)].
  unfold publishes. rewrite Ht, omap_app. simpl.
  assert (omap (λ e, match e with
                     | SendDiagnostics u' ds =>
                         if decide (u' = u) then Some ds else None
                     | _ => None
                     end) l = []) as ->; [|done].
  clear Ht. induction Hl as [|e l He _ IH]; [done|].
  destruct e; simpl in *; try done. by case_decide; subst.
Qed.

(** ** A timer that fires *)

Lemma fire_due id due textDocument s :
  timers s !! id = Some (due, textDocument) → due ≤ now s →
  fire id s =
    validateTextDocument textDocument
      (set_pendingValidationRequests
         (delete (uri textDocument) (pendingValidationRequests s))
         (set_timers (delete id (timers s)) s)).
Proof.
  intros Ht Hdue. unfold fire. rewrite Ht.
  by rewrite (proj2 (Nat.leb_le _ _) Hdue).
Qed.

Lemma fire_idle id s :
  (∀ due textDocument,
     timers s !! id = Some (due, textDocument) → now s < due) →
  fire id s = s.
Proof.
  intros Hid. unfold fire.
  destruct (timers s !! id) as [[due d]|] eqn:Ht; [|done].
  specialize (Hid _ _ eq_refl).
  by rewrite (proj2 (Nat.leb_gt _ _) Hid).
Qed.

Lemma fire_cases id s :
  fire id s = s ∨
  ∃ due textDocument,
    timers s !! id = Some (due, textDocument) ∧ due ≤ now s.
Proof.
  destruct (timers s !! id) as [[due d]|] eqn:Ht.
  - destruct (decide (due ≤ now s)); [right; eauto|].
    left. apply fire_idle. intros due' d' Hid.
    rewrite Ht in Hid. injection Hid as <- <-. lia.
  - left. apply fire_idle. intros due' d' Hid. congruence.
Qed.

Lemma coherent_fire id s : coherent s → coherent (fire id s).
Proof.
  intros Hs. destruct (fire_cases id s) as [->|(due & d & Ht & Hdue)];
    [done|].
  rewrite (fire_due _ _ _ _ Ht Hdue).
  eapply coherent_unchanged; [apply validateTextDocument_unchanged|].
  destruct Hs as [H1 H2 H3 H4]. split; simpl; [| | |done].
  - intros id' due' d' [Hne Hid]%lookup_delete_Some.
    destruct (decide (uri d' = uri d)) as [Heq|Hu].
    + pose proof (H1 _ _ _ Hid) as Hp. pose proof (H1 _ _ _ Ht) as Hp'.
      congruence.
    + rewrite lookup_delete_ne by done. by eapply H1.
  - intros u id' [Hne Hp]%lookup_delete_Some.
    destruct (H2 _ _ Hp) as (due' & d' & Ht' & Hu).
    exists due', d'. split; [|done].
    rewrite lookup_delete_ne; [done|]. intros ->. congruence.
  - intros id' [x [_ Hid]%lookup_delete_Some]. apply H3. by eexists.
Qed.

(** States that differ outside the scheduler and the document store. *)
Lemma coherent_same s s' :
  timers s' = timers s →
  pendingValidationRequests s' = pendingValidationRequests s →
  nextTimer s' = nextTimer s → documents s' = documents s →
  coherent s → coherent s'.
Proof. intros Ht Hp Hn Hd [H1 H2 H3 H4]. split; rewrite ?Ht, ?Hp, ?Hn, ?Hd; done. Qed.

Lemma coherent_foldl_triggerValidation (l : list TextDocument) s :
  coherent s →
  coherent (foldl (λ acc d, triggerValidation d acc) s l).
Proof.
  revert s. induction l as [|d l IH]; intros s Hs; [done|].
  simpl. by apply IH, coherent_triggerValidation.
Qed.

Lemma unchanged_runSafe {A} (m : M A) (a : A) message token s :
  framed m → unchanged s (runSafe m a message token s).2.
Proof.
  intros Hm. unfold runSafe.
  destruct (isCancellationRequested token); [apply unchanged_refl|].
  destruct (m s) as [[r|e] s'] eqn:Hms; simpl.
  - by destruct (Hm _ _ _ Hms).
  - eapply unchanged_trans; [by destruct (Hm _ _ _ Hms)|].
    apply unchanged_emit.
Qed.

Lemma unchanged_handle (r : Request) token s :
  unchanged s (handle r token s).2.
Proof. rewrite handle_runSafe. apply unchanged_runSafe, framed_body. Qed.

Lemma coherent_didOpen_store u lang v txt s :
  coherent s →
  coherent
    (set_documents
       (<[u := mkTextDocument u lang (nextCell s)]> (documents s))
       (set_nextCell (S (nextCell s))
          (set_heap (λ a, if decide (a = nextCell s) then mkContents v txt
                          else heap s a) s))).
Proof.
  intros [H1 H2 H3 H4]. split; simpl; [done..|].
  intros u' d [[<- <-]|[_ Hd]]%lookup_insert_Some; [done|]. by apply H4.
Qed.

Lemma coherent_didOpen u lang v txt s :
  coherent s → coherent (didOpen u lang v txt s).
Proof.
  intros Hs. unfold didOpen, onDidChangeContent.
  apply coherent_triggerValidation.
  exact (coherent_didOpen_store u lang v txt s Hs).
Qed.

Lemma coherent_didChange u v txt s :
  coherent s → coherent (didChange u v txt s).
Proof.
  intros Hs. unfold didChange. destruct (documents s !! u); [|done].
  apply coherent_triggerValidation. by apply (coherent_same s).
Qed.

Lemma coherent_didClose u s : coherent s → coherent (didClose u s).
Proof.
  intros Hs. unfold didClose, onDidClose.
  destruct (documents s !! u) as [d|] eqn:Hd; [|done].
  eapply coherent_unchanged; [apply unchanged_emit|].
  apply coherent_cleanPendingValidation.
  destruct Hs as [H1 H2 H3 H4]. split; simpl; [done..|].
  intros u' d' [_ Hd']%lookup_delete_Some. by apply H4.
Qed.

Lemma coherent_updateConfiguration settings s :
  coherent s → coherent (updateConfiguration settings s).
Proof.
  intros Hs. unfold updateConfiguration.
  apply coherent_foldl_triggerValidation. by apply (coherent_same s).
Qed.

Lemma coherent_step (a : Action) s : coherent s → coherent (step a s).
Proof.
  intros Hs. destruct a; simpl.
  - by apply (coherent_same s).
  - by apply coherent_fire.
  - by apply (coherent_same s).
  - by apply coherent_didOpen.
  - by apply coherent_didChange.
  - by apply coherent_didClose.
  - by apply coherent_updateConfiguration.
  - eapply coherent_unchanged; [apply unchanged_handle|done].
  - by apply (coherent_same s).
Qed.



Lemma coherent_run (sched : list Action) s :
  coherent s → coherent (run sched s).
Proof.
  revert s. induction sched as [|a sched IH]; intros s Hs; [done|].
  simpl. by apply IH, coherent_step.
Qed.

Lemma coherent_at_most_one_timer s : coherent s → at_most_one_timer s.
Proof.
  intros [H1 _ _ _] id1 id2 due1 due2 d1 d2 Ht1 Ht2 Hu.
  apply H1 in Ht1, Ht2. congruence.
Qed.

(** C4: in every state the server reaches, and after
    [triggerValidation] or [cleanPendingValidation] returns from it, no
    two armed timers are for the same document identity; and
    [triggerValidation] for an identity with a pending timer cancels
    that timer and arms a new one, due after [validationDelayMs]. *)
Theorem one_pending_timer_per_identity
    (sched : list Action) textDocument :
  let s := run sched init in
  at_most_one_timer s ∧
  at_most_one_timer (triggerValidation textDocument s) ∧
  at_most_one_timer (cleanPendingValidation textDocument s) ∧
  ∀ prior,
    pendingValidationRequests s !! uri textDocument = Some prior →
    is_Some (timers s !! prior) ∧
    timers (triggerValidation textDocument s) !! prior = None ∧
    ∃ request,
      request ≠ prior ∧
      pendingValidationRequests (triggerValidation textDocument s)
        !! uri textDocument = Some request ∧
      timers (triggerValidation textDocument s) !! request =
        Some (now s + validationDelayMs, textDocument).
Proof.
  intros s. assert (coherent s) as Hs by apply coherent_run, coherent_init.
  split_and!.
  - by apply coherent_at_most_one_timer.
  - by apply coherent_at_most_one_timer, coherent_triggerValidation.
  - by apply coherent_at_most_one_timer, coherent_cleanPendingValidation.
  - intros prior Hp.
    destruct (pending_timer _ Hs _ _ Hp) as (due & d & Ht & Hu).
    assert (prior < nextTimer s) as Hlt.
    { apply (timer_fresh _ Hs). by eexists. }
    rewrite triggerValidation_timers, triggerValidation_pending, Hp.
    split_and!; [by eexists| |].
    + rewrite lookup_insert_ne by lia. apply lookup_delete_eq.
    + exists (nextTimer s). split_and!; [lia| |]; by rewrite lookup_insert_eq.
Qed.

(** ** Timers of other identities are left alone *)

Lemma cleanPendingValidation_shrinks textDocument s id x :
  timers (cleanPendingValidation textDocument s) !! id = Some x →
  timers s !! id = Some x.
Proof.
  rewrite cleanPendingValidation_timers.
  destruct (_ !! uri textDocument); [|done].
  by intros [_ ?]%lookup_delete_Some.
Qed.

Lemma cleanPendingValidation_keeps textDocument s id due d :
  coherent s → uri textDocument ≠ uri d →
  timers s !! id = Some (due, d) →
  timers (cleanPendingValidation textDocument s) !! id = Some (due, d).
Proof.
  intros Hs Hne Ht. rewrite cleanPendingValidation_timers.
  destruct (_ !! uri textDocument) as [id0|] eqn:Hp; [|done].
  rewrite lookup_delete_ne; [done|]. intros ->.
  destruct (pending_timer _ Hs _ _ Hp) as (due0 & d0 & Ht0 & Hu0).
  congruence.
Qed.

Lemma cleanPendingValidation_disarms textDocument s :
  coherent s → disarmed (uri textDocument) (cleanPendingValidation textDocument s).
Proof.
  intros Hs id due d Ht Hu.
  pose proof (coherent_cleanPendingValidation textDocument s Hs) as Hs'.
  apply (timer_pending _ Hs') in Ht.
  by rewrite Hu, cleanPendingValidation_pending, lookup_delete_eq in Ht.
Qed.

Lemma triggerValidation_no_new textDocument s id due d :
  uri textDocument ≠ uri d →
  timers (triggerValidation textDocument s) !! id = Some (due, d) →
  timers s !! id = Some (due, d).
Proof.
  intros Hne. rewrite triggerValidation_timers.
  intros [[_ [= _ <-]]|[_ Ht]]%lookup_insert_Some; [done|].
  destruct (_ !! uri textDocument); [|done].
  by apply lookup_delete_Some in Ht as [_ ?].
Qed.

Lemma triggerValidation_keeps textDocument s id due d :
  coherent s → uri textDocument ≠ uri d →
  timers s !! id = Some (due, d) →
  timers (triggerValidation textDocument s) !! id = Some (due, d).
Proof.
  intros Hs Hne Ht. rewrite triggerValidation_timers.
  assert (id < nextTimer s) by (apply (timer_fresh _ Hs); by eexists).
  rewrite lookup_insert_ne by lia.
  rewrite <-cleanPendingValidation_timers.
  by apply cleanPendingValidation_keeps.
Qed.

(** After [triggerValidation] the one timer of the identity is the new
    one. *)
Lemma triggerValidation_arms textDocument s :
  coherent s →
  let s' := triggerValidation textDocument s in
  pendingValidationRequests s' !! uri textDocument = Some (nextTimer s) ∧
  timers s' !! nextTimer s =
    Some (now s + validationDelayMs, textDocument) ∧
  ∀ id due d, timers s' !! id = Some (due, d) →
              uri d = uri textDocument →
              id = nextTimer s ∧ due = now s + validationDelayMs ∧
              d = textDocument.
Proof.
  intros Hs s'. subst s'.
  pose proof (coherent_triggerValidation textDocument s Hs) as Hs'.
  assert (timers (triggerValidation textDocument s) !! nextTimer s =
            Some (now s + validationDelayMs, textDocument)) as Hnew.
  { rewrite triggerValidation_timers. apply lookup_insert_eq. }
  split_and!; [|done|].
  - rewrite triggerValidation_pending. apply lookup_insert_eq.
  - intros id due d Ht Hu.
    assert (id = nextTimer s) as ->.
    { by eapply (coherent_at_most_one_timer _ Hs'). }
    rewrite Hnew in Ht. by injection Ht as <- <-.
Qed.

Lemma elsewhere_refl s : elsewhere s s.
Proof. by split. Qed.

Lemma elsewhere_trans s1 s2 s3 :
  elsewhere s1 s2 → elsewhere s2 s3 → elsewhere s1 s3.
Proof. intros [] []. split; congruence. Qed.

Lemma foldl_triggerValidation_elsewhere (l : list TextDocument) s :
  elsewhere s (foldl (λ acc d, triggerValidation d acc) s l).
Proof.
  revert s. induction l as [|d l IH]; intros s; [apply elsewhere_refl|].
  simpl. eapply elsewhere_trans; [apply triggerValidation_elsewhere|apply IH].
Qed.

Lemma foldl_triggerValidation_keeps (l : list TextDocument) s id due d :
  coherent s → uri d ∉ uri <$> l →
  timers s !! id = Some (due, d) →
  timers (foldl (λ acc d, triggerValidation d acc) s l) !! id =
    Some (due, d).
Proof.
  revert s. induction l as [|d' l IH]; intros s Hs Hnin Ht; [done|].
  simpl in *. apply not_elem_of_cons in Hnin as [Hne Hnin].
  apply IH; [by apply coherent_triggerValidation|done|].
  by apply triggerValidation_keeps.
Qed.

Lemma foldl_triggerValidation_no_new (l : list TextDocument) s id due d :
  uri d ∉ uri <$> l →
  timers (foldl (λ acc d, triggerValidation d acc) s l) !! id =
    Some (due, d) →
  timers s !! id = Some (due, d).
Proof.
  revert s. induction l as [|d' l IH]; intros s Hnin Ht; [done|].
  simpl in *. apply not_elem_of_cons in Hnin as [Hne Hnin].
  apply IH in Ht; [|done]. by eapply triggerValidation_no_new.
Qed.

Lemma foldl_triggerValidation_arms (l : list TextDocument) s d :
  coherent s → NoDup (uri <$> l) → d ∈ l →
  let s' := foldl (λ acc d, triggerValidation d acc) s l in
  ∃ request,
    pendingValidationRequests s' !! uri d = Some request ∧
    timers s' !! request = Some (now s + validationDelayMs, d).
Proof.
  revert s. induction l as [|d' l IH]; intros s Hs Hnd Hin; simpl.
  { by apply elem_of_nil in Hin. }
  simpl in Hnd. apply NoDup_cons in Hnd as [Hnin Hnd].
  pose proof (coherent_triggerValidation d' s Hs) as Hs'.
  apply elem_of_cons in Hin as [->|Hin].
  - destruct (triggerValidation_arms d' s Hs) as (_ & Ht & _).
    exists (nextTimer s).
    pose proof (foldl_triggerValidation_keeps l _ _ _ _ Hs' Hnin Ht) as Hk.
    split; [|done].
    apply (timer_pending _ (coherent_foldl_triggerValidation l _ Hs')) in Hk.
    done.
  - destruct (IH _ Hs' Hnd Hin) as (request & Hp & Ht).
    exists request. split; [done|].
    by destruct (triggerValidation_elsewhere d' s) as [<- _ _ _ _ _ _ _].
Qed.

Lemma documents_all_spec s d :
  d ∈ documents_all s ↔ ∃ u, documents s !! u = Some d.
Proof.
  unfold documents_all. rewrite list_elem_of_fmap. split.
  - intros ([u d'] & -> & Hin%elem_of_map_to_list). by exists u.
  - intros (u & Hd). exists (u, d). by rewrite elem_of_map_to_list.
Qed.

Lemma documents_all_NoDup s :
  coherent s → NoDup (uri <$> documents_all s).
Proof.
  intros Hs. unfold documents_all.
  assert ((uri <$> (map_to_list (documents s)).*2) =
          (map_to_list (documents s)).*1) as ->;
    [|apply NoDup_fst_map_to_list].
  rewrite <-list_fmap_compose. apply list_fmap_ext.
  intros i [u d] Hin%list_elem_of_lookup_2%elem_of_map_to_list. simpl.
  by apply (documents_uri _ Hs).
Qed.

(** C7: a settings update gives every registered language service its
    own part of the settings, empties the per-document settings, leaves
    the stylesheet cache (and the document store) as it was, and calls
    [triggerValidation] for every open document: each of them ends with
    a pending timer due after [validationDelayMs]. *)
Theorem updateConfiguration_effects settings s :
  coherent s →
  let s' := updateConfiguration settings s in
  (∀ e, configuration s' e = Some (settingsFor e settings)) ∧
  documentSettings s' = ∅ ∧
  stylesheets s' = stylesheets s ∧
  documents s' = documents s ∧
  ∀ u d, documents s !! u = Some d →
    ∃ request,
      pendingValidationRequests s' !! u = Some request ∧
      timers s' !! request = Some (now s + validationDelayMs, d).
Proof.
  intros Hs s'. subst s'. unfold updateConfiguration.
  set (s1 := foldl _ s languageServices_keys).
  set (s2 := set_documentSettings ∅ s1).
  assert (coherent s2) as Hs2 by by apply (coherent_same s).
  destruct (foldl_triggerValidation_elsewhere (documents_all s2) s2)
    as [_ _ _ Hd Hds Hc Hss _].
  split_and!.
  - intros e. rewrite Hc. by destruct e.
  - by rewrite Hds.
  - by rewrite Hss.
  - by rewrite Hd.
  - intros u d Hud.
    destruct (foldl_triggerValidation_arms (documents_all s2) s2 d Hs2)
      as (request & Hp & Ht).
    + by apply documents_all_NoDup.
    + apply documents_all_spec. by exists u.
    + exists request. by rewrite <-(documents_uri _ Hs _ _ Hud).
Qed.

(** ** What one step does to the observations of an identity *)

Lemma grows_validations u (P : Effect → Prop) s s' :
  (∀ d, ¬ P (Validating d)) → grows P s s' →
  validations u s' = validations u s.
Proof.
  intros HP [_ (l & Ht & Hl)]. unfold validations.
  rewrite Ht, omap_app.
  assert (omap (λ e, match e with
                     | Validating d =>
                         if decide (uri (document d) = u) then Some d
                         else None
                     | _ => None
                     end) l = []) as ->; [|done].
  clear Ht. induction Hl as [|e l He _ IH]; [done|].
  destruct e; simpl; try done. by destruct (HP d).
Qed.

Lemma grows_publishes u (P : Effect → Prop) s s' :
  (∀ ds, ¬ P (SendDiagnostics u ds)) → grows P s s' →
  publishes u s' = publishes u s.
Proof.
  intros HP [_ (l & Ht & Hl)]. unfold publishes.
  rewrite Ht, omap_app.
  assert (omap (λ e, match e with
                     | SendDiagnostics u' ds =>
                         if decide (u' = u) then Some ds else None
                     | _ => None
                     end) l = []) as ->; [|done].
  clear Ht. induction Hl as [|e l He _ IH]; [done|].
  destruct e; simpl; try done.
  case_decide; [|done]. subst. by destruct (HP diagnostics).
Qed.

Lemma validations_trace u s s' :
  trace s' = trace s → validations u s' = validations u s.
Proof. unfold validations. by intros ->. Qed.

Lemma publishes_trace u s s' :
  trace s' = trace s → publishes u s' = publishes u s.
Proof. unfold publishes. by intros ->. Qed.

Lemma grows_handle (r : Request) token s :
  grows query_output s (handle r token s).2.
Proof.
  rewrite handle_runSafe. unfold runSafe.
  destruct (isCancellationRequested token); [apply grows_refl|].
  destruct (body r s) as [[x|e] s'] eqn:Hb; simpl;
    assert (grows query_output s s') as Hg
      by (eapply grows_mono; [|by eapply framed_body]; by intros []);
    [done|].
  eapply grows_trans; [done|]. by apply grows_emit.
Qed.

Lemma triggerValidation_now textDocument s :
  now (triggerValidation textDocument s) = now s.
Proof. by destruct (triggerValidation_elsewhere textDocument s). Qed.

Lemma triggerValidation_trace textDocument s :
  trace (triggerValidation textDocument s) = trace s.
Proof. by destruct (triggerValidation_elsewhere textDocument s). Qed.

Lemma triggerValidation_documents textDocument s :
  documents (triggerValidation textDocument s) = documents s.
Proof. by destruct (triggerValidation_elsewhere textDocument s). Qed.

Lemma triggerValidation_heap textDocument s :
  heap (triggerValidation textDocument s) = heap s.
Proof. by destruct (triggerValidation_elsewhere textDocument s). Qed.




Lemma cleanPendingValidation_trace textDocument s :
  trace (cleanPendingValidation textDocument s) = trace s.
Proof. by destruct (cleanPendingValidation_elsewhere textDocument s). Qed.

Lemma cleanPendingValidation_documents textDocument s :
  documents (cleanPendingValidation textDocument s) = documents s.
Proof. by destruct (cleanPendingValidation_elsewhere textDocument s). Qed.

Lemma foldl_triggerValidation_now (l : list TextDocument) s :
  now (foldl (λ acc d, triggerValidation d acc) s l) = now s.
Proof. by destruct (foldl_triggerValidation_elsewhere l s). Qed.


Lemma foldl_triggerValidation_trace (l : list TextDocument) s :
  trace (foldl (λ acc d, triggerValidation d acc) s l) = trace s.
Proof. by destruct (foldl_triggerValidation_elsewhere l s). Qed.

Lemma foldl_triggerValidation_documents (l : list TextDocument) s :
  documents (foldl (λ acc d, triggerValidation d acc) s l) = documents s.
Proof. by destruct (foldl_triggerValidation_elsewhere l s). Qed.


Lemma fire_timers id due textDocument s :
  timers s !! id = Some (due, textDocument) → due ≤ now s →
  timers (fire id s) = delete id (timers s).
Proof.
  intros Ht Hdue. rewrite (fire_due _ _ _ _ Ht Hdue).
  by destruct (validateTextDocument_unchanged textDocument
    (set_pendingValidationRequests
       (delete (uri textDocument) (pendingValidationRequests s))
       (set_timers (delete id (timers s)) s))) as [_ _ _ _ -> _ _ _ _].
Qed.

Lemma fire_shrinks id s id' x :
  timers (fire id s) !! id' = Some x → timers s !! id' = Some x.
Proof.
  destruct (fire_cases id s) as [->|(due & d & Ht & Hdue)]; [done|].
  rewrite (fire_timers _ _ _ _ Ht Hdue).
  by intros [_ ?]%lookup_delete_Some.
Qed.



(** Unless [a] fires a due timer of [u], no validation pass for [u]
    starts. *)
Lemma step_validations u (a : Action) s :
  (∀ id due d, a = Fire id → timers s !! id = Some (due, d) →
               due ≤ now s → uri d ≠ u) →
  validations u (step a s) = validations u s.
Proof.
  intros Hfire. destruct a; unfold step; try done.
  - destruct (fire_cases id s) as [->|(due & d & Ht & Hdue)]; [done|].
    rewrite (fire_due _ _ _ _ Ht Hdue), validateTextDocument_validations.
    rewrite decide_False; [done|]. by eapply Hfire.
  - apply validations_trace. unfold didOpen, onDidChangeContent.
    by rewrite triggerValidation_trace.
  - apply validations_trace. unfold didChange, onDidChangeContent.
    destruct (documents s !! u0); [|done].
    by rewrite triggerValidation_trace.
  - unfold didClose, onDidClose. destruct (documents s !! u0); [|done].
    unfold validations, emit. simpl.
    by rewrite cleanPendingValidation_trace.
  - apply validations_trace. unfold updateConfiguration.
    by rewrite foldl_triggerValidation_trace.
  - eapply grows_validations; [|apply grows_handle]. intros d [].
Qed.

Lemma step_publishes u (a : Action) s :
  coherent s →
  (∀ id due d, a = Fire id → timers s !! id = Some (due, d) →
               due ≤ now s → uri d ≠ u) →
  (a = DidClose u → documents s !! u = None) →
  publishes u (step a s) = publishes u s.
Proof.
  intros Hs Hfire Hclose. destruct a; unfold step; try done.
  - destruct (fire_cases id s) as [->|(due & d & Ht & Hdue)]; [done|].
    rewrite (fire_due _ _ _ _ Ht Hdue), validateTextDocument_publishes;
      [done|]. by eapply Hfire.
  - apply publishes_trace. unfold didOpen, onDidChangeContent.
    by rewrite triggerValidation_trace.
  - apply publishes_trace. unfold didChange, onDidChangeContent.
    destruct (documents s !! u0); [|done].
    by rewrite triggerValidation_trace.
  - unfold didClose, onDidClose.
    destruct (documents s !! u0) as [d|] eqn:Hd; [|done].
    unfold publishes, emit. simpl.
    rewrite cleanPendingValidation_trace. simpl.
    rewrite decide_False; [done|].
    rewrite (documents_uri _ Hs _ _ Hd). intros ->.
    rewrite Hclose in Hd; done.
  - apply publishes_trace. unfold updateConfiguration.
    by rewrite foldl_triggerValidation_trace.
  - eapply grows_publishes; [|apply grows_handle]. intros ds [].
Qed.

Lemma documents_all_closed u s :
  coherent s → documents s !! u = None → u ∉ uri <$> documents_all s.
Proof.
  intros Hs Hnone (d & -> & (u' & Hd)%documents_all_spec)%list_elem_of_fmap.
  rewrite (documents_uri _ Hs _ _ Hd) in Hnone. congruence.
Qed.

Lemma not_triggers_DidChange u u' v txt s d :
  coherent s → ¬ triggers u (DidChange u' v txt) s →
  documents s !! u' = Some d → uri d ≠ u.
Proof.
  intros Hs Hnt Hd Hu. apply Hnt.
  rewrite (documents_uri _ Hs _ _ Hd) in Hu. subst u'.
  split; [done|]. by eexists.
Qed.

(** A step that does not call [triggerValidation] for [u] arms no timer
    for [u]. *)
Lemma step_no_new u (a : Action) s id due d :
  coherent s → ¬ triggers u a s → uri d = u →
  timers (step a s) !! id = Some (due, d) →
  timers s !! id = Some (due, d).
Proof.
  intros Hs Hnt Hu. destruct a; unfold step; try done.
  - apply fire_shrinks.
  - unfold didOpen, onDidChangeContent.
    intros Ht%triggerValidation_no_new; [done|]. simpl in *. congruence.
  - unfold didChange, onDidChangeContent.
    destruct (documents s !! u0) as [d0|] eqn:Hd; [|done].
    intros Ht%triggerValidation_no_new; [done|].
    rewrite Hu. by eapply not_triggers_DidChange.
  - unfold didClose, onDidClose.
    destruct (documents s !! u0) as [d0|] eqn:Hd; [|done].
    unfold emit. simpl. by intros Ht%cleanPendingValidation_shrinks.
  - unfold updateConfiguration.
    intros Ht%foldl_triggerValidation_no_new; [done|].
    rewrite Hu. apply documents_all_closed; [by apply (coherent_same s)|].
    simpl in *. by apply eq_None_not_Some.
  - by destruct (unchanged_handle r token s) as [_ _ _ _ -> _ _ _ _].
Qed.



Lemma step_documents_closed u (a : Action) s :
  ¬ opens u a → documents s !! u = None →
  documents (step a s) !! u = None.
Proof.
  intros Hopen Hnone. destruct a; unfold step; try done.
  - destruct (fire_cases id s) as [->|(due & d & Ht & Hdue)]; [done|].
    rewrite (fire_due _ _ _ _ Ht Hdue).
    by destruct (validateTextDocument_unchanged d
      (set_pendingValidationRequests
         (delete (uri d) (pendingValidationRequests s))
         (set_timers (delete id (timers s)) s))) as [_ _ _ -> _ _ _ _ _].
  - unfold didOpen, onDidChangeContent.
    rewrite triggerValidation_documents. simpl in *.
    by rewrite lookup_insert_ne.
  - unfold didChange, onDidChangeContent.
    destruct (documents s !! u0); [|done].
    by rewrite triggerValidation_documents.
  - unfold didClose, onDidClose. destruct (documents s !! u0); [|done].
    unfold emit. simpl. rewrite cleanPendingValidation_documents. simpl.
    by apply lookup_delete_None; right.
  - unfold updateConfiguration.
    by rewrite foldl_triggerValidation_documents.
  - by destruct (unchanged_handle r token s) as [_ _ _ -> _ _ _ _ _].
Qed.

Lemma closed_not_triggers u (a : Action) s :
  ¬ opens u a → documents s !! u = None → ¬ triggers u a s.
Proof.
  intros Hopen Hnone.
  destruct a; simpl in *; try done; rewrite Hnone;
    [intros [_ []%is_Some_None]|intros []%is_Some_None].
Qed.

Lemma disarmed_step u (a : Action) s :
  coherent s → ¬ triggers u a s → disarmed u s → disarmed u (step a s).
Proof.
  intros Hs Hnt Hdis id due d Ht Hu.
  apply (step_no_new u) in Ht; [|done..]. by eapply Hdis.
Qed.

(** While a document stays closed and disarmed, nothing is validated or
    published for it. *)
Lemma closed_run u (sched : list Action) s :
  coherent s → documents s !! u = None → disarmed u s →
  Forall (λ a, ¬ opens u a) sched →
  validations u (run sched s) = validations u s ∧
  publishes u (run sched s) = publishes u s.
Proof.
  intros Hs Hnone Hdis Hsched. revert s Hs Hnone Hdis.
  induction Hsched as [|a sched Ha _ IH]; intros s Hs Hnone Hdis; [done|].
  simpl.
  pose proof (closed_not_triggers u a s Ha Hnone) as Hnt.
  destruct (IH (step a s)) as [-> ->].
  - by apply coherent_step.
  - by apply step_documents_closed.
  - by apply disarmed_step.
  - split.
    + apply step_validations. intros id due d _ Ht _. by eapply Hdis.
    + apply step_publishes; [done| |done].
      intros id due d _ Ht _. by eapply Hdis.
Qed.

(** C3: when the close event of an open document is processed, exactly
    one entry is added to the trace, the publish of an empty diagnostic
    set for its identity, and no timer stays armed for the identity
    whatever was scheduled before; from then on, as long as the
    identity is not opened again, no validation pass starts for it and
    nothing more is published for it. *)
Theorem close_cancels_validation u (sched : list Action) s :
  coherent s → is_Some (documents s !! u) →
  Forall (λ a, ¬ opens u a) sched →
  let s1 := step (DidClose u) s in
  trace s1 = SendDiagnostics u [] :: trace s ∧
  disarmed u s1 ∧
  validations u (run sched s1) = validations u s ∧
  publishes u (run sched s1) = [] :: publishes u s.
Proof.
  intros Hs [d Hd] Hsched s1.
  pose proof (documents_uri _ Hs _ _ Hd) as Hu.
  assert (coherent s1) as Hs1 by by apply coherent_step.
  assert (trace s1 = SendDiagnostics u [] :: trace s) as Htrace.
  { subst s1. unfold step, didClose, onDidClose. rewrite Hd.
    unfold emit. simpl. by rewrite cleanPendingValidation_trace, Hu. }
  assert (documents s1 !! u = None) as Hnone.
  { subst s1. unfold step, didClose, onDidClose. rewrite Hd.
    unfold emit. simpl. rewrite cleanPendingValidation_documents. simpl.
    apply lookup_delete_eq. }
  assert (disarmed u s1) as Hdis.
  { subst s1. unfold step, didClose, onDidClose. rewrite Hd.
    intros id due d' Ht. unfold emit in Ht. simpl in Ht.
    rewrite <-Hu. revert Ht. apply cleanPendingValidation_disarms.
    destruct Hs as [H1 H2 H3 H4]. split; simpl; [done..|].
    intros u' d'' [_ Hd']%lookup_delete_Some. by apply H4. }
  destruct (closed_run u sched s1 Hs1 Hnone Hdis Hsched) as [-> ->].
  split_and!; [done..| |].
  - unfold validations. by rewrite Htrace.
  - unfold publishes. rewrite Htrace. simpl. by rewrite decide_True.
Qed.

(** ** Debouncing *)









(** The due timer of [u] fires: one validation pass starts, on the
    document as it is at that moment, and [u] is disarmed. *)
Lemma fire_validates u request due d s :
  coherent s → timers s !! request = Some (due, d) → due ≤ now s →
  uri d = u →
  validations u (fire request s) = snapshot s d :: validations u s ∧
  disarmed u (fire request s).
Proof.
  intros Hs Ht Hdue Hu. split.
  - rewrite (fire_due _ _ _ _ Ht Hdue), validateTextDocument_validations.
    by rewrite decide_True.
  - intros id due' d' Ht' Hu'.
    pose proof (fire_shrinks _ _ _ _ Ht') as Ht0.
    assert (id = request) as ->.
    { eapply (coherent_at_most_one_timer _ Hs); [done..|congruence]. }
    rewrite (fire_timers _ _ _ _ Ht Hdue), lookup_delete_eq in Ht'. done.
Qed.


(** ** The stylesheet cache *)



(** The invariant of the cache holds in every state the server
    reaches. *)

Lemma keeps_same {A} (m : M A) :
  (∀ s r s', m s = (r, s') →
     now s' = now s ∧ stylesheets s' = stylesheets s) →
  keeps m.
Proof. intros Hm s r s' [-> ->]%Hm. done. Qed.

Lemma keeps_bind {A B} (m : M A) (f : A → M B) :
  keeps m → (∀ a, keeps (f a)) → keeps (bind m f).
Proof.
  intros Hm Hf s r s'. unfold bind.
  destruct (m s) as [[a|e] s1] eqn:Hms.
  - intros Hr Hinv. eapply Hf; [done|]. by eapply Hm.
  - intros [= <- <-]. by eapply Hm.
Qed.

Lemma keeps_ret {A} (a : A) : keeps (ret a).
Proof. apply keeps_same. by intros s r s' [= <- <-]. Qed.

Lemma keeps_read textDocument : keeps (read textDocument).
Proof. apply keeps_same. by intros s r s' [= <- <-]. Qed.

Lemma keeps_documents_get u : keeps (documents_get u).
Proof. apply keeps_same. by intros s r s' [= <- <-]. Qed.

Lemma keeps_perform (e : Effect) : keeps (perform e).
Proof. apply keeps_same. by intros s r s' [= <- <-]. Qed.

Lemma keeps_getLanguageService textDocument :
  keeps (getLanguageService textDocument).
Proof.
  unfold getLanguageService. destruct (languageServices _).
  - apply keeps_ret.
  - apply keeps_bind; [apply keeps_perform|intros; apply keeps_ret].
Qed.

Lemma keeps_invoke {A} service method d
    (f : Engine → option LanguageSettings → Result A) :
  keeps (invoke service method d f).
Proof.
  apply keeps_same. destruct service; by intros s r s' [= <- <-].
Qed.

Lemma keeps_stylesheets_get textDocument :
  keeps (stylesheets_get textDocument).
Proof.
  intros s r s'. unfold stylesheets_get.
  destruct (get parse _ _ _ s) as [[r0 c] s0] eqn:Hg.
  intros [= <- <-] Hinv. simpl.
  assert (now s0 = now s) as ->; [|by eapply get_inv].
  unfold get in Hg. destruct (hit _ _); [by injection Hg as <- <- <-|].
  destruct (parse _ s) as [[m|e] s1] eqn:Hp; injection Hg as <- <- <-;
    by destruct (grows_unchanged _ _ _ (framed_parse _ _ _ _ Hp)).
Qed.

Create HintDb keeps discriminated.
Hint Resolve keeps_ret keeps_read keeps_documents_get keeps_perform
  keeps_getLanguageService keeps_invoke keeps_stylesheets_get : keeps.

Ltac keeps :=
  repeat first
    [ apply keeps_bind; [|intros ?]
    | progress eauto with keeps
    | match goal with
      | |- keeps (match ?x with _ => _ end) => destruct x
      end ].







(** ** A validation pass that fails *)

(** A pass that raises has published nothing and logged no error of its
    own. *)
Lemma validation_raises textDocument settings s e s' :
  validation textDocument settings s = (Throw e, s') → frame s s'.
Proof.
  unfold validation, bind, perform.
  destruct (stylesheets_get textDocument s) as [[sheet|e1] s1] eqn:H1;
    [|intros [= <- <-]; by eapply framed_stylesheets_get].
  destruct (getLanguageService textDocument s1) as [[service|e2] s2] eqn:H2;
    [|intros [= <- <-]; eapply grows_trans;
      [by eapply framed_stylesheets_get
      |by eapply framed_getLanguageService]].
  unfold read.
  destruct (invoke service _ _ _ s2) as [[ds|e3] s3] eqn:H3; [done|].
  intros [= <- <-].
  eapply grows_trans; [by eapply framed_stylesheets_get|].
  eapply grows_trans; [by eapply framed_getLanguageService|].
  by eapply framed_invoke.
Qed.

(** The rejection handler of [validateTextDocument] is not reached: the
    failure is reported by the handler of unhandled rejections. *)
Lemma validateTextDocument_raises textDocument s e s' :
  validation textDocument None
    (emit (Validating (snapshot s textDocument)) s) = (Throw e, s') →
  validateTextDocument textDocument s =
    emit (ConsoleError (formatError "Unhandled exception" e)) s' ∧
  errors (validateTextDocument textDocument s) =
    formatError "Unhandled exception" e :: errors s ∧
  publishes (uri textDocument) (validateTextDocument textDocument s) =
    publishes (uri textDocument) s.
Proof.
  intros Hv. pose proof (validation_raises _ _ _ _ _ Hv) as Hf.
  assert (validateTextDocument textDocument s =
            emit (ConsoleError (formatError "Unhandled exception" e)) s')
    as ->.
  { unfold validateTextDocument, promise_then, getDocumentSettings.
    by rewrite Hv. }
  split_and!; [done| |].
  - change (formatError "Unhandled exception" e :: errors s' =
            formatError "Unhandled exception" e :: errors s).
    by rewrite (frame_errors _ _ Hf).
  - change (publishes (uri textDocument) s' =
            publishes (uri textDocument) s).
    by rewrite (frame_publishes _ _ _ Hf).
Qed.

(** * Further properties of the server *)

(** ** Timers belong to open documents *)

Lemma live_triggerValidation textDocument s :
  coherent s →
  (∀ id due d, timers s !! id = Some (due, d) →
               uri d ≠ uri textDocument → documents s !! uri d = Some d) →
  documents s !! uri textDocument = Some textDocument →
  live (triggerValidation textDocument s).
Proof.
  intros Hs Hlive Hdoc id due d Ht.
  rewrite triggerValidation_documents.
  destruct (decide (uri d = uri textDocument)) as [Hu|Hu].
  - destruct (triggerValidation_arms textDocument s Hs) as (_ & _ & Hone).
    destruct (Hone _ _ _ Ht Hu) as (_ & _ & ->). done.
  - apply triggerValidation_no_new in Ht; [|done]. by eapply Hlive.
Qed.

Lemma live_foldl_triggerValidation (l : list TextDocument) s :
  coherent s → live s →
  (∀ d, d ∈ l → documents s !! uri d = Some d) →
  live (foldl (λ acc d, triggerValidation d acc) s l).
Proof.
  revert s. induction l as [|d l IH]; intros s Hs Hlive Hl; [done|].
  simpl. apply IH.
  - by apply coherent_triggerValidation.
  - apply live_triggerValidation; [done| |apply Hl; left].
    intros id due d' Ht _. by eapply Hlive.
  - intros d' Hd'. rewrite triggerValidation_documents. apply Hl. by right.
Qed.

Lemma live_step (a : Action) s : coherent s → live s → live (step a s).
Proof.
  intros Hs Hlive. destruct a; unfold step; try done.
  - destruct (fire_cases id s) as [->|(due & d & Ht & Hdue)]; [done|].
    intros id' due' d' Ht'.
    pose proof (fire_shrinks _ _ _ _ Ht') as Ht0.
    rewrite (fire_due _ _ _ _ Ht Hdue).
    destruct (validateTextDocument_unchanged d
      (set_pendingValidationRequests
         (delete (uri d) (pendingValidationRequests s))
         (set_timers (delete id (timers s)) s))) as [_ _ _ -> _ _ _ _ _].
    by eapply Hlive.
  - unfold didOpen, onDidChangeContent.
    apply live_triggerValidation.
    + exact (coherent_didOpen_store u lang v txt s Hs).
    + simpl. intros id due d Ht Hu. rewrite lookup_insert_ne by done.
      by eapply Hlive.
    + simpl. apply lookup_insert_eq.
  - unfold didChange, onDidChangeContent.
    destruct (documents s !! u) as [d|] eqn:Hd; [|done].
    apply live_triggerValidation.
    + by apply (coherent_same s).
    + simpl. intros id due d' Ht _. by eapply Hlive.
    + simpl. by rewrite (documents_uri _ Hs _ _ Hd).
  - unfold didClose, onDidClose.
    destruct (documents s !! u) as [d|] eqn:Hd; [|done].
    pose proof (documents_uri _ Hs _ _ Hd) as Hu.
    intros id due d' Ht. unfold emit in *. simpl in *.
    rewrite cleanPendingValidation_documents. simpl.
    assert (uri d' ≠ u) as Hne.
    { rewrite <-Hu. revert Ht. apply cleanPendingValidation_disarms.
      destruct Hs as [H1 H2 H3 H4]. split; simpl; [done..|].
      intros u' d'' [_ Hd']%lookup_delete_Some. by apply H4. }
    rewrite lookup_delete_ne by done.
    apply cleanPendingValidation_shrinks in Ht. by eapply Hlive.
  - unfold updateConfiguration.
    apply live_foldl_triggerValidation; [by apply (coherent_same s)|done|].
    intros d (u & Hd)%documents_all_spec. simpl in *.
    by rewrite (documents_uri _ Hs _ _ Hd).
  - intros id due d.
    destruct (unchanged_handle r token s) as [_ _ _ -> -> _ _ _ _].
    apply Hlive.
Qed.

Lemma live_run (sched : list Action) s :
  coherent s → live s → live (run sched s).
Proof.
  revert s. induction sched as [|a sched IH]; intros s Hs Hlive; [done|].
  simpl. apply IH; [by apply coherent_step|by apply live_step].
Qed.

Lemma live_init : live init.
Proof. intros id due d. simpl. by rewrite lookup_empty. Qed.

(** X1: in every state the server reaches, the timer table and
    [pendingValidationRequests] describe the same timers: every armed
    timer is filed under the URI of its document, and every entry of
    the map names an armed timer for that URI.  No timer leaks and no
    entry dangles. *)
Theorem pending_map_tracks_timers (sched : list Action) :
  let s := run sched init in
  (∀ id due d, timers s !! id = Some (due, d) →
               pendingValidationRequests s !! uri d = Some id) ∧
  (∀ u id, pendingValidationRequests s !! u = Some id →
           ∃ due d, timers s !! id = Some (due, d) ∧ uri d = u).
Proof.
  intros s. assert (coherent s) as [H1 H2 _ _]
    by apply coherent_run, coherent_init.
  by split.
Qed.

(** X2: in every state the server reaches, a pending validation belongs
    to the document object that is open under its URI: no timer is armed
    for a closed document or for an object that a later open
    replaced. *)
Theorem pending_validation_is_for_open_document (sched : list Action) :
  let s := run sched init in
  ∀ id due d,
    timers s !! id = Some (due, d) → documents s !! uri d = Some d.
Proof.
  intros s. apply live_run; [apply coherent_init|apply live_init].
Qed.

(** ** The per-document settings are never filled *)

Lemma documentSettings_step (a : Action) s :
  documentSettings s = ∅ → documentSettings (step a s) = ∅.
Proof.
  intros Hempty. destruct a; unfold step; try done.
  - destruct (fire_cases id s) as [->|(due & d & Ht & Hdue)]; [done|].
    rewrite (fire_due _ _ _ _ Ht Hdue).
    by destruct (validateTextDocument_unchanged d
      (set_pendingValidationRequests
         (delete (uri d) (pendingValidationRequests s))
         (set_timers (delete id (timers s)) s)))
      as [_ _ _ _ _ _ _ -> _].
  - unfold didOpen, onDidChangeContent.
    by destruct (triggerValidation_elsewhere
                   (mkTextDocument u lang (nextCell s))
                   (set_documents
                      (<[u := mkTextDocument u lang (nextCell s)]>
                         (documents
                            (set_nextCell (S (nextCell s))
                               (set_heap
                                  (λ a, if decide (a = nextCell s)
                                        then mkContents v txt else heap s a)
                                  s))))
                      (set_nextCell (S (nextCell s))
                         (set_heap
                            (λ a, if decide (a = nextCell s)
                                  then mkContents v txt else heap s a) s))))
      as [_ _ _ _ -> _ _ _].
  - unfold didChange, onDidChangeContent.
    destruct (documents s !! u) as [d|]; [|done].
    by destruct (triggerValidation_elsewhere d
                   (set_heap (λ a, if decide (a = cell d)
                                   then mkContents v txt else heap s a) s))
      as [_ _ _ _ -> _ _ _].
  - unfold didClose, onDidClose.
    destruct (documents s !! u) as [d|]; [|done].
    unfold emit. simpl.
    destruct (cleanPendingValidation_elsewhere d
                (set_documentSettings
                   (delete (uri d) (documentSettings s))
                   (set_stylesheets (onDocumentRemoved d (stylesheets s))
                      (set_documents (delete u (documents s)) s))))
      as [_ _ _ _ -> _ _ _].
    simpl. rewrite Hempty. apply delete_empty.
  - unfold updateConfiguration.
    by destruct (foldl_triggerValidation_elsewhere
                   (documents_all (set_documentSettings ∅
                      (foldl (λ acc ke,
                                configure ke.2 (settingsFor ke.2 settings)
                                  acc) s languageServices_keys)))
                   (set_documentSettings ∅
                      (foldl (λ acc ke,
                                configure ke.2 (settingsFor ke.2 settings)
                                  acc) s languageServices_keys)))
      as [_ _ _ _ -> _ _ _].
  - by destruct (unchanged_handle r token s) as [_ _ _ _ _ _ _ -> _].
Qed.

(** X3: in every state the server reaches, [documentSettings] is empty:
    [getDocumentSettings] resolves to [undefined] without storing
    anything, and the only writes are the deletion on close and the
    reset on a settings update. *)
Theorem documentSettings_never_filled (sched : list Action) :
  documentSettings (run sched init) = ∅.
Proof.
  assert (∀ s, documentSettings s = ∅ →
               documentSettings (run sched s) = ∅) as Hrun.
  { induction sched as [|a sched IH]; intros s Hs; [done|].
    simpl. by apply IH, documentSettings_step. }
  by apply Hrun.
Qed.

(** ** A validation pass that succeeds *)

Lemma validation_registered textDocument settings s e sheet s1 ds :
  own (languageId textDocument) = Some e →
  stylesheets_get textDocument s = (Ok sheet, s1) →
  doValidation e (configuration s e) (snapshot s textDocument)
    (value sheet) settings = Ok ds →
  validation textDocument settings s =
    (Ok tt,
     emit (SendDiagnostics (uri textDocument) ds)
       (emit (Invoked e "doValidation" (snapshot s textDocument)) s1)).
Proof.
  intros Hown Hget Hds.
  destruct (grows_unchanged _ _ _ (framed_stylesheets_get _ _ _ _ Hget))
    as [_ Hheap _ _ _ _ _ _ Hconf].
  assert (snapshot s1 textDocument = snapshot s textDocument) as Hsnap
    by (unfold snapshot; by rewrite Hheap).
  unfold validation, bind, read, perform.
  rewrite Hget, (getLanguageService_registered _ _ _ Hown). simpl.
  by rewrite Hsnap, Hconf, Hds.
Qed.

Lemma publishes_emit_send u u' ds s :
  publishes u (emit (SendDiagnostics u' ds) s) =
    if decide (u' = u) then ds :: publishes u s else publishes u s.
Proof. unfold publishes, emit. simpl. by case_decide. Qed.

Lemma publishes_emit_invoked u e method d s :
  publishes u (emit (Invoked e method d) s) = publishes u s.
Proof. done. Qed.

(** X4: a validation pass for a document of a registered language whose
    stylesheet is available and whose validation does not raise publishes
    exactly one diagnostic set, for the URI of the document: the result
    of [doValidation] on the document as it is, with its cached
    stylesheet and with no settings ([getDocumentSettings] resolves to
    [undefined]).  It logs no error and publishes nothing for any other
    URI. *)
Theorem successful_validation_publishes textDocument s e sheet s1 ds :
  own (languageId textDocument) = Some e →
  stylesheets_get textDocument
    (emit (Validating (snapshot s textDocument)) s) = (Ok sheet, s1) →
  doValidation e (configuration s e) (snapshot s textDocument)
    (value sheet) None = Ok ds →
  let s' := validateTextDocument textDocument s in
  publishes (uri textDocument) s' = ds :: publishes (uri textDocument) s ∧
  errors s' = errors s ∧
  ∀ u, u ≠ uri textDocument → publishes u s' = publishes u s.
Proof.
  intros Hown Hget Hds s'.
  pose proof (framed_stylesheets_get _ _ _ _ Hget) as Hframe.
  assert (s' = emit (SendDiagnostics (uri textDocument) ds)
                 (emit (Invoked e "doValidation" (snapshot s textDocument))
                    s1)) as ->.
  { subst s'. unfold validateTextDocument, promise_then, getDocumentSettings.
    by rewrite (validation_registered _ None _ e sheet s1 ds Hown Hget Hds). }
  split_and!.
  - rewrite publishes_emit_send, decide_True, publishes_emit_invoked by done.
    f_equal. by rewrite (frame_publishes _ _ _ Hframe).
  - change (errors s1 = errors s). by rewrite (frame_errors _ _ Hframe).
  - intros u Hu.
    rewrite publishes_emit_send, decide_False, publishes_emit_invoked by done.
    by rewrite (frame_publishes _ _ _ Hframe).
Qed.

(** ** The scheduler, one identity at a time *)

(** X5: when a due timer fires, its identity is idle again whatever the
    validation pass does: the entry of [pendingValidationRequests] is
    gone, the timer is gone, no timer is armed for the identity, and the
    timers of all other identities are as they were. *)
Theorem fired_timer_leaves_identity_idle id due textDocument s :
  coherent s →
  timers s !! id = Some (due, textDocument) → due ≤ now s →
  let s' := fire id s in
  pendingValidationRequests s' !! uri textDocument = None ∧
  timers s' !! id = None ∧
  disarmed (uri textDocument) s' ∧
  ∀ id' due' d', uri d' ≠ uri textDocument →
    timers s' !! id' = Some (due', d') ↔ timers s !! id' = Some (due', d').
Proof.
  intros Hs Ht Hdue s'. subst s'.
  pose proof (fire_timers _ _ _ _ Ht Hdue) as Htimers.
  split_and!.
  - rewrite (fire_due _ _ _ _ Ht Hdue).
    destruct (validateTextDocument_unchanged textDocument
      (set_pendingValidationRequests
         (delete (uri textDocument) (pendingValidationRequests s))
         (set_timers (delete id (timers s)) s))) as [_ _ _ _ _ _ -> _ _].
    apply lookup_delete_eq.
  - rewrite Htimers. apply lookup_delete_eq.
  - by apply (fire_validates (uri textDocument) id due textDocument s).
  - intros id' due' d' Hu. rewrite Htimers. split.
    + by intros [_ ?]%lookup_delete_Some.
    + intros Ht'. rewrite lookup_delete_ne; [done|]. congruence.
Qed.

(** X6: [triggerValidation] and [cleanPendingValidation] act on one
    identity only: the armed timers and the pending entries of every
    other identity are the same before and after. *)
Theorem scheduler_acts_on_one_identity textDocument s :
  coherent s →
  ∀ id due d, uri d ≠ uri textDocument →
    (timers (triggerValidation textDocument s) !! id = Some (due, d) ↔
     timers s !! id = Some (due, d)) ∧
    (timers (cleanPendingValidation textDocument s) !! id = Some (due, d) ↔
     timers s !! id = Some (due, d)) ∧
    pendingValidationRequests (triggerValidation textDocument s) !! uri d =
      pendingValidationRequests s !! uri d ∧
    pendingValidationRequests (cleanPendingValidation textDocument s)
      !! uri d = pendingValidationRequests s !! uri d.
Proof.
  intros Hs id due d Hu. split_and!.
  - split; [by apply triggerValidation_no_new|].
    by apply triggerValidation_keeps.
  - split; [apply cleanPendingValidation_shrinks|].
    by apply cleanPendingValidation_keeps.
  - rewrite triggerValidation_pending. by apply lookup_insert_ne.
  - rewrite cleanPendingValidation_pending. by apply lookup_delete_ne.
Qed.

Lemma cleanPendingValidation_idle textDocument s :
  pendingValidationRequests (cleanPendingValidation textDocument s)
    !! uri textDocument = None.
Proof. rewrite cleanPendingValidation_pending. apply lookup_delete_eq. Qed.

(** X7: cancelling undoes arming.  [cleanPendingValidation] right after
    [triggerValidation] for the same document leaves the state that
    [cleanPendingValidation] alone leaves, but for the timer handle that
    was used up; and [cleanPendingValidation] twice is the same as
    once. *)
Theorem clean_undoes_trigger textDocument s :
  coherent s →
  cleanPendingValidation textDocument (triggerValidation textDocument s) =
    set_nextTimer (S (nextTimer s)) (cleanPendingValidation textDocument s) ∧
  cleanPendingValidation textDocument
    (cleanPendingValidation textDocument s) =
    cleanPendingValidation textDocument s.
Proof.
  intros Hs. split.
  - pose proof (coherent_cleanPendingValidation textDocument s Hs) as Hs1.
    assert (timers (cleanPendingValidation textDocument s)
              !! nextTimer s = None) as Hfresh.
    { apply eq_None_not_Some. intros Hsome.
      apply (timer_fresh _ Hs1) in Hsome.
      rewrite cleanPendingValidation_nextTimer in Hsome. lia. }
    pose proof (cleanPendingValidation_idle textDocument s) as Hidle.
    unfold triggerValidation, setTimeout.
    rewrite cleanPendingValidation_nextTimer.
    set (s1 := cleanPendingValidation textDocument s) in *.
    unfold cleanPendingValidation at 1. simpl.
    rewrite lookup_insert_eq. unfold clearTimeout. simpl.
    rewrite delete_insert_eq, delete_insert_eq.
    rewrite (delete_id _ _ Hfresh), (delete_id _ _ Hidle).
    by destruct s1.
  - unfold cleanPendingValidation at 1.
    by rewrite cleanPendingValidation_idle.
Qed.

(** ** A settings update validates nothing itself *)

Lemma foldl_triggerValidation_timers_origin (l : list TextDocument) s
    id due d :
  timers (foldl (λ acc d, triggerValidation d acc) s l) !! id =
    Some (due, d) →
  timers s !! id = Some (due, d) ∨
  (due = now s + validationDelayMs ∧ d ∈ l).
Proof.
  revert s. induction l as [|d' l IH]; intros s; simpl; [by left|].
  intros [Ht|[-> Hin]]%IH.
  - rewrite triggerValidation_timers in Ht.
    apply lookup_insert_Some in Ht as [[_ [= <- <-]]|[_ Ht]].
    + right. split; [done|left].
    + left. destruct (_ !! uri d'); [|done].
      by apply lookup_delete_Some in Ht as [_ ?].
  - right. rewrite triggerValidation_now. split; [done|by right].
Qed.

(** X8: a settings update publishes nothing, logs nothing and starts no
    validation pass while it runs: the trace is unchanged.  Revalidation
    only happens through the timers it arms, and every timer it leaves
    armed either was armed before or is due [validationDelayMs] from now
    for a document that is open. *)
Theorem updateConfiguration_defers_validation settings s :
  let s' := updateConfiguration settings s in
  trace s' = trace s ∧ now s' = now s ∧
  ∀ id due d,
    timers s' !! id = Some (due, d) →
    timers s !! id = Some (due, d) ∨
    (due = now s + validationDelayMs ∧
     ∃ u, documents s !! u = Some d).
Proof.
  intros s'. subst s'. unfold updateConfiguration.
  rewrite foldl_triggerValidation_trace, foldl_triggerValidation_now.
  split_and!; [done..|].
  intros id due d [Ht|[-> Hin]]%foldl_triggerValidation_timers_origin.
  - by left.
  - right. split; [done|]. by apply documents_all_spec in Hin.
Qed.

(** ** The router, where it is lenient *)

(** X9: for a language identifier that does not name a member of
    [Object.prototype], [getLanguageService] never raises and answers
    with a registered service: the one registered under exactly that
    identifier, silently, or else the css service after logging
    "Document type is <id>, using css instead.". *)
Theorem router_is_lenient textDocument s :
  languageId textDocument ∉ Object_prototype →
  match own (languageId textDocument) with
  | Some e => getLanguageService textDocument s = (Ok (Registered e), s)
  | None =>
      getLanguageService textDocument s =
        (Ok (Registered CSS),
         emit (ConsoleLog ("Document type is " +:+ languageId textDocument
                           +:+ ", using css instead.")) s)
  end.
Proof.
  intros Hid.
  destruct (getLanguageService_lenient textDocument s Hid)
    as [(e & -> & Hget)|[-> Hget]]; done.
Qed.

(** ** What a query computation leaves alone *)

(** X10: the computation of a query, whatever its outcome, leaves the
    documents, their contents, the timers, the pending map, the settings
    and the configuration of the services as they are; it publishes no
    diagnostics, starts no validation pass and logs no error itself.  It
    only fills the stylesheet cache and adds notices and service
    invocations to the trace. *)
Theorem query_computation_is_framed (r : Request) s u :
  let s' := (body r s).2 in
  unchanged s s' ∧
  publishes u s' = publishes u s ∧
  validations u s' = validations u s ∧
  errors s' = errors s.
Proof.
  intros s'. subst s'.
  destruct (body r s) as [res s'] eqn:Hb. simpl.
  pose proof (framed_body r _ _ _ Hb) as Hf.
  split_and!.
  - by destruct Hf.
  - by apply frame_publishes.
  - by apply frame_validations.
  - by apply frame_errors.
Qed.

(** X11: with the document open under a registered service and its
    stylesheet available, the computation of each of the eight queries
    is one call of the service method of its kind, on the document as it
    is, with the stylesheet from the cache and the configuration the
    service was last given; the reply is the result of that method
    (null or the object, the array, or a completion list that is never
    incomplete), and the method raises exactly when the computation
    does. *)
Theorem query_is_one_method_call (r : Request) s textDocument e sheet s1 :
  documents s !! target r = Some textDocument →
  own (languageId textDocument) = Some e →
  stylesheets_get textDocument s = (Ok sheet, s1) →
  body r s =
    (answer r e (configuration s e) (snapshot s textDocument) (value sheet),
     emit (Invoked e (methodOf r) (snapshot s textDocument)) s1) ∧
  invocations (body r s).2 =
    (e, methodOf r, snapshot s textDocument) :: invocations s1.
Proof.
  intros Hdoc Hown Hget.
  by rewrite (body_registered r s textDocument e sheet s1 Hdoc Hown Hget).
Qed.

(** ** Documents whose language identifier names an inherited member *)

Lemma stylesheets_get_inherited textDocument s r s' :
  languageId textDocument ∈ Object_prototype →
  stylesheets_get textDocument s = (r, s') → trace s' = trace s.
Proof.
  intros Hid. unfold stylesheets_get, get.
  destruct (hit _ _); [by intros [= <- <-]|].
  unfold parse, bind. simpl.
  destruct (getLanguageService_inherited textDocument s Hid) as [_ ->].
  simpl. by intros [= <- <-].
Qed.

Lemma body_inherited (r : Request) textDocument s :
  documents s !! target r = Some textDocument →
  languageId textDocument ∈ Object_prototype →
  ∃ e s', body r s = (Throw e, s') ∧ trace s' = trace s.
Proof.
  intros Hdoc Hid.
  destruct (stylesheets_get textDocument s) as [[sheet|e1] s1] eqn:Hget;
    pose proof (stylesheets_get_inherited _ _ _ _ Hid Hget) as Htrace;
    destruct (getLanguageService_inherited textDocument s Hid) as [_ Hs];
    destruct (getLanguageService_inherited textDocument s1 Hid) as [_ Hs1];
    destruct r; simpl in *;
    unfold computeCompletions, computeHover, computeDocumentSymbols,
      computeDefinitions, computeDocumentHighlights, computeReferences,
      computeCodeActions, computeRenames, bind, documents_get, read;
    rewrite Hdoc, ?Hs, Hget, ?Hs1; simpl; by eexists _, _.
Qed.

Lemma validation_inherited textDocument settings s :
  languageId textDocument ∈ Object_prototype →
  ∃ e s', validation textDocument settings s = (Throw e, s').
Proof.
  intros Hid. unfold validation, bind, read.
  destruct (stylesheets_get textDocument s) as [[sheet|e1] s1] eqn:Hget;
    [|by eexists _, _].
  destruct (getLanguageService_inherited textDocument s1 Hid) as [_ ->].
  simpl. by eexists _, _.
Qed.

(** X12: a document whose language identifier names a member of
    [Object.prototype] is never served.  The computation of every query
    on it raises before any service method is invoked (the trace is
    unchanged), and a validation pass for it publishes nothing, for any
    URI: it ends in the handler of unhandled rejections. *)
Theorem inherited_language_is_never_served textDocument s :
  languageId textDocument ∈ Object_prototype →
  (∀ r : Request, documents s !! target r = Some textDocument →
     ∃ e s', body r s = (Throw e, s') ∧ trace s' = trace s) ∧
  (∀ u, publishes u (validateTextDocument textDocument s) =
          publishes u s) ∧
  ∃ e, errors (validateTextDocument textDocument s) =
         formatError "Unhandled exception" e :: errors s.
Proof.
  intros Hid. split; [intros r Hdoc; by apply (body_inherited r textDocument)|].
  destruct (validation_inherited textDocument None
              (emit (Validating (snapshot s textDocument)) s) Hid)
    as (e & s' & Hv).
  pose proof (validation_raises _ _ _ _ _ Hv) as Hf.
  assert (validateTextDocument textDocument s =
            emit (ConsoleError (formatError "Unhandled exception" e)) s')
    as ->.
  { unfold validateTextDocument, promise_then, getDocumentSettings.
    by rewrite Hv. }
  split.
  - intros u.
    change (publishes u s' = publishes u s).
    by rewrite (frame_publishes _ _ _ Hf).
  - exists e.
    change (formatError "Unhandled exception" e :: errors s' =
            formatError "Unhandled exception" e :: errors s).
    by rewrite (frame_errors _ _ Hf).
Qed.

(** ** A closed document shows no diagnostics *)

Lemma step_documents (a : Action) s :
  documents (step a s) =
    match a with
    | DidOpen u lang _ _ =>
        <[u := mkTextDocument u lang (nextCell s)]> (documents s)
    | DidClose u => delete u (documents s)
    | _ => documents s
    end.
Proof.
  destruct a; unfold step; try done.
  - destruct (fire_cases id s) as [->|(due & d & Ht & Hdue)]; [done|].
    rewrite (fire_due _ _ _ _ Ht Hdue).
    by destruct (validateTextDocument_unchanged d
      (set_pendingValidationRequests
         (delete (uri d) (pendingValidationRequests s))
         (set_timers (delete id (timers s)) s))) as [_ _ _ -> _ _ _ _ _].
  - unfold didOpen, onDidChangeContent.
    by rewrite triggerValidation_documents.
  - unfold didChange, onDidChangeContent.
    destruct (documents s !! u); [|done].
    by rewrite triggerValidation_documents.
  - unfold didClose, onDidClose.
    destruct (documents s !! u) eqn:Hd; [|by rewrite delete_id].
    unfold emit. simpl. by rewrite cleanPendingValidation_documents.
  - unfold updateConfiguration.
    by rewrite foldl_triggerValidation_documents.
  - by destruct (unchanged_handle r token s) as [_ _ _ -> _ _ _ _ _].
Qed.

Lemma didClose_publishes u d s :
  coherent s → documents s !! u = Some d →
  publishes u (step (DidClose u) s) = [] :: publishes u s.
Proof.
  intros Hs Hd. unfold step, didClose, onDidClose. rewrite Hd.
  rewrite publishes_emit_send, (documents_uri _ Hs _ _ Hd), decide_True
    by done.
  f_equal. apply publishes_trace.
  by rewrite cleanPendingValidation_trace.
Qed.

Lemma displayed_step u (a : Action) s :
  coherent s → live s →
  (documents s !! u = None →
   displayed u s = None ∨ displayed u s = Some []) →
  documents (step a s) !! u = None →
  displayed u (step a s) = None ∨ displayed u (step a s) = Some [].
Proof.
  intros Hs Hlive Hinv Hclosed. unfold displayed in *.
  destruct (documents s !! u) as [d|] eqn:Hd.
  - assert (a = DidClose u) as ->.
    { rewrite step_documents in Hclosed.
      destruct a; try congruence.
      - apply lookup_insert_None in Hclosed as [? _]. congruence.
      - destruct (decide (u0 = u)) as [->|Hne]; [done|].
        rewrite lookup_delete_ne in Hclosed by done. congruence. }
    rewrite (didClose_publishes u d s Hs Hd). by right.
  - rewrite step_publishes; [by apply Hinv|done| |done].
    intros id due d _ Ht _ Hu. apply Hlive in Ht.
    rewrite Hu in Ht. congruence.
Qed.

(** X13: in every state the server reaches, a document that is not open
    shows no diagnostics: the set published last for its URI, if there
    is one, is empty. *)
Theorem closed_document_shows_no_diagnostics (sched : list Action) u :
  let s := run sched init in
  documents s !! u = None →
  displayed u s = None ∨ displayed u s = Some [].
Proof.
  assert (∀ s, coherent s → live s →
               (documents s !! u = None →
                displayed u s = None ∨ displayed u s = Some []) →
               documents (run sched s) !! u = None →
               displayed u (run sched s) = None ∨
               displayed u (run sched s) = Some []) as Hrun.
  { induction sched as [|a sched IH]; intros s Hs Hlive Hinv; [done|].
    simpl. apply IH.
    - by apply coherent_step.
    - by apply live_step.
    - by apply displayed_step. }
  apply Hrun; [apply coherent_init|apply live_init|].
  intros _. by left.
Qed.

End Properties.

(** * The initialize handshake *)

Lemma walk_at_path pre rest root c def :
  at_path pre root c → walk (pre ++ rest) root def = walk rest c def.
Proof.
  induction 1 as [v|key keys properties c v Hown Hkey _ IH]; first done.
  simpl. rewrite Hown.
  rewrite bool_decide_eq_true_2 by (rewrite Hkey; eauto).
  by rewrite Hkey.
Qed.

Lemma at_path_nest keys leaf :
  Forall (λ key, key ≠ "hasOwnProperty") keys →
  at_path keys (nest keys leaf) leaf.
Proof.
  induction 1 as [|key keys Hkey _ IH]; simpl; first by constructor.
  apply at_step with (nest keys leaf);
    [|by simpl; rewrite String.eqb_refl|done].
  simpl. by apply String.eqb_neq in Hkey as ->.
Qed.

Lemma split_on_plain key :
  mentions dot key = false → split_on dot key = [key].
Proof.
  induction key as [|c key IH]; first done.
  simpl. intros [Hc Hkey]%orb_false_elim.
  by rewrite Hc, IH.
Qed.

Lemma split_on_append key name :
  mentions dot key = false →
  split_on dot (key +:+ "." +:+ name) = key :: split_on dot name.
Proof.
  induction key as [|c key IH]; first done.
  simpl. intros [Hc Hkey]%orb_false_elim.
  rewrite Hc. by rewrite IH.
Qed.

Lemma split_on_join keys :
  keys ≠ [] → Forall (λ key, mentions dot key = false) keys →
  split_on dot (join keys) = keys.
Proof.
  intros Hne Hkeys. induction Hkeys as [|key keys Hkey Hkeys IH]; first done.
  destruct keys as [|key' keys].
  - by apply split_on_plain.
  - change (join (key :: key' :: keys))
      with (key +:+ "." +:+ join (key' :: keys)).
    rewrite split_on_append by done. by rewrite IH.
Qed.

(** X14 (server.ts lines 60-70): a capability that the client declares
    is read back: when the keys of the dotted name lead, through objects
    that own them, to a value, [getClientCapability] returns that value,
    whatever the default is. *)
Theorem getClientCapability_reads_declared_value capabilities name def v :
  at_path (split_on dot name) capabilities v →
  getClientCapability capabilities name def = Ok v.
Proof.
  intros Hpath. unfold getClientCapability.
  rewrite <- (app_nil_r (split_on dot name)).
  by rewrite (walk_at_path _ [] _ v).
Qed.

(** X15 (server.ts lines 60-70): the default is returned for a key that
    a truthy value on the way does not own, whatever keys follow. *)
Theorem getClientCapability_missing_key_gives_default
    capabilities name def pre key rest c :
  split_on dot name = pre ++ key :: rest →
  at_path pre capabilities c →
  truthy c = true → hasOwnProperty c key = Ok false →
  getClientCapability capabilities name def = Ok def.
Proof.
  intros Hname Hpath Htruthy Hown. unfold getClientCapability.
  rewrite Hname, (walk_at_path _ _ _ c) by done. simpl.
  by rewrite Htruthy, Hown.
Qed.

(** X16 (server.ts lines 60-70): a falsy value that is reached before
    the keys are used up ends the loop and is returned itself, not the
    default. *)
Theorem getClientCapability_returns_falsy_value
    capabilities name def pre key rest c :
  split_on dot name = pre ++ key :: rest →
  at_path pre capabilities c →
  truthy c = false →
  getClientCapability capabilities name def = Ok c.
Proof.
  intros Hname Hpath Htruthy. unfold getClientCapability.
  rewrite Hname, (walk_at_path _ _ _ c) by done. simpl.
  by rewrite Htruthy.
Qed.

(** X17 (server.ts lines 60-70): building the nested object for a list
    of keys and reading it by the joined name is a round trip, when no
    key contains a dot or is hasOwnProperty. *)
Theorem getClientCapability_nest_join keys leaf def :
  keys ≠ [] →
  Forall (λ key, mentions dot key = false ∧ key ≠ "hasOwnProperty") keys →
  getClientCapability (nest keys leaf) (join keys) def = Ok leaf.
Proof.
  intros Hne [Hdots Hown]%Forall_and.
  unfold getClientCapability. rewrite split_on_join by done.
  rewrite <- (app_nil_r keys) at 1.
  rewrite (walk_at_path _ [] _ leaf) by by apply at_path_nest.
  done.
Qed.

Lemma split_on_snippetSupport :
  split_on dot "textDocument.completion.completionItem.snippetSupport"
  = snippetSupportPath.
Proof. reflexivity. Qed.

(** X18 (server.ts lines 58-92): when the client declares
    textDocument.completion.completionItem.snippetSupport, the server
    answers with the capabilities for the truthiness of the declared
    value: it advertises a completion provider exactly when that value
    is truthy. *)
Theorem onInitialize_completion_follows_snippetSupport capabilities v :
  at_path snippetSupportPath capabilities v →
  onInitialize capabilities = Ok (capabilitiesFor (truthy v)) ∧
  (is_Some (completionProvider (capabilitiesFor (truthy v)))
   ↔ truthy v = true).
Proof.
  intros Hpath. split.
  - unfold onInitialize, getClientCapability.
    rewrite split_on_snippetSupport.
    rewrite <- (app_nil_r snippetSupportPath).
    by rewrite (walk_at_path _ [] _ v).
  - destruct (truthy v); simpl; split; (done || by intros [? ?]).
Qed.

(** X19 (server.ts lines 58-92): a client that is silent about snippet
    support gets no completion provider: when the path to snippetSupport
    breaks off, at a falsy value or at a value that does not own the
    next key, the server answers without a completion provider. *)
Theorem onInitialize_silent_client_gets_no_completion
    capabilities pre key rest c :
  pre ++ key :: rest = snippetSupportPath →
  at_path pre capabilities c →
  truthy c = false ∨ hasOwnProperty c key = Ok false →
  ∃ result, onInitialize capabilities = Ok result ∧
            completionProvider result = None.
Proof.
  intros Hkeys Hpath Hc. exists (capabilitiesFor false). split; last done.
  unfold onInitialize, getClientCapability.
  rewrite split_on_snippetSupport, <- Hkeys.
  rewrite (walk_at_path _ _ _ c) by done. simpl.
  destruct (truthy c) eqn:Htruthy.
  - destruct Hc as [? | ->]; done.
  - by rewrite Htruthy.
Qed.

(** X20 (server.ts lines 58-92): an object on the way to snippetSupport
    that has an own property named hasOwnProperty makes the handler of
    the initialize request raise: the own property shadows the inherited
    method and is not a function. *)
Theorem onInitialize_raises_on_shadowed_method
    capabilities pre key rest properties :
  pre ++ key :: rest = snippetSupportPath →
  at_path pre capabilities (JsObject properties) →
  is_Some (assoc "hasOwnProperty" properties) →
  ∃ e, onInitialize capabilities = Throw e.
Proof.
  intros Hkeys Hpath [shadow Hshadow].
  unfold onInitialize, getClientCapability.
  rewrite split_on_snippetSupport, <- Hkeys.
  rewrite (walk_at_path _ _ _ (JsObject properties)) by done. simpl.
  rewrite Hshadow. eauto.
Qed.

(** * Concrete runs *)

(** Three edits of [a.css] in a burst, then the timers are tried in turn
    once the delay has passed: one validation pass, on the text of the
    last edit. *)
Example debounce_run :
  validations a_css
    (run (edits ++ [last_edit] ++ [Tick 200; Fire 0; Fire 1; Fire 2])
         started) =
    [ mkSnapshot a_doc (mkContents 3 ".z{}") ].
Proof. reflexivity. Qed.

(** Edits that are a full delay apart are not coalesced: each one is
    validated. *)
Example slow_edits_run :
  validations a_css
    (run [ DidOpen a_css "css" 1 ".x{}"; Tick 200; Fire 0;
           DidChange a_css 2 ".y{}"; Tick 200; Fire 1 ] started) =
    [ mkSnapshot a_doc (mkContents 2 ".y{}");
      mkSnapshot a_doc (mkContents 1 ".x{}") ].
Proof. reflexivity. Qed.

(** [a.css] is closed right after it was opened: no validation pass, one
    empty publish. *)
Example close_run :
  let s := run [ DidOpen a_css "css" 1 ".x{}"; DidClose a_css;
                 Tick 200; Fire 0 ] started in
  validations a_css s = [] ∧ publishes a_css s = [ [] ].
Proof. split; reflexivity. Qed.

(** An unregistered language identifier gets the css service, with a
    notice. *)
Example unknown_dialect_run :
  getLanguageService (mkTextDocument a_css "stylus" 0) started =
    (Ok (Registered CSS),
     emit (ConsoleLog "Document type is stylus, using css instead.")
          started).
Proof. reflexivity. Qed.

(** C8, at the input where the code fails: [a.css] is opened with a text
    whose validation raises, and its timer fires.  One validation pass
    runs and nothing is published, as the claim says; but the failure is
    not logged with the identity of the document: the only error logged
    is the one of the handler of unhandled rejections. *)
Theorem validation_failure_is_unhandled :
  let s := run [ DidOpen a_css "css" 1 "@invalid"; Tick 200; Fire 0 ]
               (@init demo) in
  validations a_css s =
    [ mkSnapshot a_doc (mkContents 1 "@invalid") ] ∧
  publishes a_css s = [] ∧
  errors s = [ "Unhandled exception: validation failed" ] ∧
  formatError "Error while validating file:///a.css" "validation failed"
    ∉ errors s.
Proof.
  vm_compute. split_and!; try reflexivity.
  intros [=]%list_elem_of_singleton.
Qed.

Lemma cleanPendingValidation_noop_witness :
  pendingValidationRequests b_open !! uri a_doc = None ∧
  cleanPendingValidation a_doc b_open = b_open.
Proof.
  split; [reflexivity|].
  apply cleanPendingValidation_noop. reflexivity.
Defined.

Lemma query_without_document_witness :
  documents b_open !! target (Hover (L:=demo) a_css 5) = None ∧
  handle (Hover (L:=demo) a_css 5) (mkToken false) b_open = (Null, b_open) ∧
  invocations (handle (Hover (L:=demo) a_css 5) (mkToken false) b_open).2 =
    invocations b_open ∧
  errors (handle (Hover (L:=demo) a_css 5) (mkToken false) b_open).2 =
    errors b_open.
Proof.
  split; [reflexivity|].
  apply (query_without_document (Hover (L:=demo) a_css 5)). reflexivity.
Defined.

Lemma guard_returns_fallback_witness :
  body failing_hover both_open =
    (Throw "query failed", (body failing_hover both_open).2) ∧
  let out := handle failing_hover (mkToken false) both_open in
  out.1 = fallback failing_hover ∧
  out.2 = emit (ConsoleError
                  (formatError (errorContext failing_hover) "query failed"))
               (body failing_hover both_open).2 ∧
  errors out.2 =
    formatError (errorContext failing_hover) "query failed"
      :: errors both_open.
Proof.
  split; [reflexivity|].
  apply (guard_returns_fallback failing_hover both_open). reflexivity.
Defined.

Lemma updateConfiguration_effects_witness :
  coherent both_open ∧
  let s' := updateConfiguration (@mkSettings demo 1 2 3) both_open in
  (∀ e, configuration s' e =
          Some (settingsFor e (@mkSettings demo 1 2 3))) ∧
  documentSettings s' = ∅ ∧
  stylesheets s' = stylesheets both_open ∧
  documents s' = documents both_open ∧
  ∀ u d, documents both_open !! u = Some d →
    ∃ request,
      pendingValidationRequests s' !! u = Some request ∧
      timers s' !! request = Some (now both_open + validationDelayMs, d).
Proof.
  assert (coherent both_open) as Hs by apply coherent_run, coherent_init.
  split; [exact Hs|].
  exact (updateConfiguration_effects (@mkSettings demo 1 2 3) both_open Hs).
Defined.

Lemma close_cancels_validation_witness :
  coherent both_open ∧
  is_Some (documents both_open !! a_css) ∧
  Forall (λ a, ¬ opens a_css a) after_close ∧
  let s1 := step (DidClose a_css) both_open in
  trace s1 = SendDiagnostics a_css [] :: trace both_open ∧
  disarmed a_css s1 ∧
  validations a_css (run after_close s1) = validations a_css both_open ∧
  publishes a_css (run after_close s1) = [] :: publishes a_css both_open.
Proof.
  assert (coherent both_open) as Hs by apply coherent_run, coherent_init.
  assert (is_Some (documents both_open !! a_css)) as Hopen
    by (exists a_doc; reflexivity).
  assert (Forall (λ a, ¬ opens a_css a) after_close) as Hq
    by (repeat constructor; intros []).
  split_and!; [exact Hs|exact Hopen|exact Hq|].
  exact (close_cancels_validation a_css after_close both_open Hs Hopen Hq).
Defined.


